(** * pysox: the effect-chain builder of [sox/transform.py]

    A shallow embedding of the [Transformer] class and proofs about the
    token sequences it assembles.

    Conventions of the embedding.
    - Arguments are taken at the types their docstrings give them: a
      number is a Python [int] or [float], a flag is a [bool], an optional
      argument is an [option].  The [isinstance] guards of the source
      reject values of other types and have no counterpart here.
    - A method is a computation over a [World]: the [Transformer] it
      mutates, the records sent to [logging], the calls made to the
      collaborators of [sox.core] and [sox.file_info], and the number of
      draws taken from [random].  A raised exception keeps the world as it
      was at the [raise].
    - ['{}'.format(x)] is Python 3's: the decimal digits of an [int], the
      shortest round-tripping [repr] of a [float].
    - Python's [sorted] is taken as a collaborator as well: where the
      keys are ordered the language fixes its result, and where they are
      not (a NaN) the arrangement is left to the interpreter. *)

From Stdlib Require Import ZArith QArith Qround List String Ascii Bool.
From Stdlib Require Import Floats DecimalString Lia.
From Stdlib Require Import Sorting.Sorted Sorting.Permutation.
Import ListNotations.

Set Warnings "-inexact-float".
Local Open Scope string_scope.
Local Open Scope list_scope.
Local Open Scope Z_scope.

(** ** Python numbers *)

Inductive number : Type :=
| PInt (z : Z)
| PFloat (f : float).

Module Num.

(** The exact value of a number.  Every finite double is an integer
    multiple of [2^-1074], so a finite value is kept as that integer. *)
Inductive xreal : Type :=
| XNaN
| XNegInf
| XFin (k : Z)
| XPosInf.

Definition exact (x : number) : xreal :=
  match x with
  | PInt z => XFin (z * 2 ^ 1074)
  | PFloat f =>
      match Prim2SF f with
      | S754_zero _ => XFin 0
      | S754_infinity s => if s then XNegInf else XPosInf
      | S754_nan => XNaN
      | S754_finite s m e =>
          XFin ((if s then Z.neg m else Z.pos m) * 2 ^ (e + 1074))
      end
  end.

(** Python compares an [int] with a [float] by value, without rounding
    the [int]; a NaN is unordered. *)
Definition xcompare (a b : xreal) : option comparison :=
  match a, b with
  | XNaN, _ | _, XNaN => None
  | XNegInf, XNegInf => Some Eq
  | XNegInf, _ => Some Lt
  | _, XNegInf => Some Gt
  | XPosInf, XPosInf => Some Eq
  | XPosInf, _ => Some Gt
  | _, XPosInf => Some Lt
  | XFin j, XFin k => Some (Z.compare j k)
  end.

Definition compare (a b : number) : option comparison :=
  xcompare (exact a) (exact b).

Definition ltb (a b : number) : bool :=
  match compare a b with Some Lt => true | _ => false end.
Definition leb (a b : number) : bool :=
  match compare a b with Some Lt | Some Eq => true | _ => false end.
Definition gtb (a b : number) : bool := ltb b a.
Definition geb (a b : number) : bool := leb b a.
Definition eqb (a b : number) : bool :=
  match compare a b with Some Eq => true | _ => false end.

(** [float(x)]: an [int] is rounded to the nearest double; [None] stands
    for the [OverflowError] of an [int] too large for a double. *)
Definition to_float (x : number) : option float :=
  match x with
  | PFloat f => Some f
  | PInt z =>
      match binary_normalize 53 1024 z 0 false with
      | S754_infinity _ => None
      | sf => Some (SF2Prim sf)
      end
  end.

(** Binary arithmetic: exact on two [int]s, in doubles otherwise. *)
Definition arith (fz : Z -> Z -> Z) (ff : float -> float -> float)
    (a b : number) : option number :=
  match a, b with
  | PInt x, PInt y => Some (PInt (fz x y))
  | _, _ =>
      match to_float a, to_float b with
      | Some x, Some y => Some (PFloat (ff x y))
      | _, _ => None
      end
  end.

Definition mul : number -> number -> option number :=
  arith Z.mul PrimFloat.mul.
Definition sub : number -> number -> option number :=
  arith Z.sub PrimFloat.sub.

End Num.

Declare Scope pynum_scope.
Delimit Scope pynum_scope with py.
Infix "<?" := Num.ltb : pynum_scope.
Infix "<=?" := Num.leb : pynum_scope.
Infix ">?" := Num.gtb : pynum_scope.
Infix ">=?" := Num.geb : pynum_scope.
Infix "=?" := Num.eqb : pynum_scope.

(** Modelled from the spec: [sox.core.is_number] is not among the sources.
    The spec's numeric parameters are the values that convert to a
    [float]: every [float], and every [int] within the range of a
    double.  What the helper makes of an [int] beyond that range the
    spec leaves open; the layouts and rejections proved below are
    stated for arguments that are numbers in this sense. *)
Definition is_number (x : number) : bool :=
  match Num.to_float x with Some _ => true | None => false end.

(** ** Rendering of numbers

    [str] and ['{}'.format] of an [int] give its decimal digits; of a
    [float], the shortest decimal that reads back as the same double, in
    positional notation when the decimal point falls within the digits'
    reach ([-4 < point <= 16]) and in scientific notation otherwise. *)

Module Repr.

(** [10^k] as a rational, for any sign of [k]. *)
Definition pow10 (k : Z) : Q :=
  if k <? 0 then Qmake 1 (Z.to_pos (10 ^ (- k))) else inject_Z (10 ^ k).

(** The value [m * 2^e] as a rational. *)
Definition dyadic (m e : Z) : Q :=
  if e <? 0 then Qmake m (Z.to_pos (2 ^ (- e))) else inject_Z (m * 2 ^ e).

(** The largest [p] with [10^p <= v], found upwards from an
    under-estimate taken from the binary logarithm. *)
Fixpoint climb (fuel : nat) (v : Q) (p : Z) : Z :=
  match fuel with
  | O => p
  | S fuel' => if Qle_bool (pow10 (p + 1)) v then climb fuel' v (p + 1) else p
  end.

Definition floor_log10 (m e : Z) : Z :=
  climb 8 (dyadic m e) ((Z.log2 m + e) * 1233 / 4096 - 2).

(** Removes the trailing zeros of [q * 10^k]. *)
Fixpoint strip (fuel : nat) (q k : Z) : Z * Z :=
  match fuel with
  | O => (q, k)
  | S fuel' =>
      if (0 <? q) && (q mod 10 =? 0) then strip fuel' (q / 10) (k + 1)
      else (q, k)
  end.

(** The candidates with [n] significant digits next to [v]: the one
    that reads back as [v] (lies between [lo] and [hi]) and is nearest
    to [v], if there is one; of two that are equally near, the one whose
    last digit is even. *)
Definition candidate (v lo hi : Q) (closed : bool) (top n : Z)
  : option (Z * Z) :=
  let k := top + 1 - n in
  let u := pow10 k in
  let q := Qfloor (v / u) in
  let inside c :=
    if closed then Qle_bool lo c && Qle_bool c hi
    else negb (Qle_bool c lo) && negb (Qle_bool hi c) in
  let c1 := (inject_Z q * u)%Q in
  let c2 := (inject_Z (q + 1) * u)%Q in
  match inside c1, inside c2 with
  | true, true =>
      if Qle_bool (v - c1) (c2 - v) then
        if Qle_bool (c2 - v) (v - c1) && Z.odd q then Some (q + 1, k)
        else Some (q, k)
      else Some (q + 1, k)
  | true, false => Some (q, k)
  | false, true => Some (q + 1, k)
  | false, false => None
  end.

Fixpoint shortest (fuel : nat) (v lo hi : Q) (closed : bool) (top n : Z)
  : Z * Z :=
  match fuel with
  | O => (Qfloor (v / pow10 (top + 1 - n)), top + 1 - n)
  | S fuel' =>
      match candidate v lo hi closed top n with
      | Some r => r
      | None => shortest fuel' v lo hi closed top (n + 1)
      end
  end.

(** The decimal digits of a natural number. *)
Definition decimal (n : Z) : list ascii :=
  list_ascii_of_string (NilZero.string_of_uint (N.to_uint (Z.to_N n))).

(** The digits and the position of the decimal point of the shortest
    decimal that rounds to the double [m * 2^e]. *)
Definition digits (m : positive) (e : Z) : list ascii * Z :=
  let v := dyadic (Z.pos m) e in
  let below :=
    if (Z.pos m =? 2 ^ 52) && (-1074 <? e) then 1 else 2 in
  let lo := dyadic (4 * Z.pos m - below) (e - 2) in
  let hi := dyadic (4 * Z.pos m + 2) (e - 2) in
  let top := floor_log10 (Z.pos m) e in
  let '(q, k) := shortest 17 v lo hi (Z.even (Z.pos m)) top 1 in
  let '(q, k) := strip 400 q k in
  let ds := decimal q in
  (ds, Z.of_nat (List.length ds) + k).

Definition zeros (n : Z) : list ascii := repeat "0"%char (Z.to_nat n).

(** The exponent of the scientific notation: a sign and at least two
    digits. *)
Definition exponent (x : Z) : list ascii :=
  (if x <? 0 then ["-"%char] else ["+"%char])
  ++ (if Z.abs x <? 10 then ["0"%char] else [])
  ++ decimal (Z.abs x).

Definition finite (m : positive) (e : Z) : list ascii :=
  let '(ds, pt) := digits m e in
  let n := Z.of_nat (List.length ds) in
  if (pt <=? -4) || (16 <? pt) then
    firstn 1 ds
    ++ (if 1 <? n then "."%char :: skipn 1 ds else [])
    ++ "e"%char :: exponent (pt - 1)
  else if pt <=? 0 then
    "0"%char :: "."%char :: zeros (- pt) ++ ds
  else if n <=? pt then
    ds ++ zeros (pt - n) ++ ["."%char; "0"%char]
  else
    firstn (Z.to_nat pt) ds ++ "."%char :: skipn (Z.to_nat pt) ds.

Definition sign (s : bool) : list ascii := if s then ["-"%char] else [].

(** [repr] of a [float]. *)
Definition float (f : PrimFloat.float) : string :=
  string_of_list_ascii
    match Prim2SF f with
    | S754_zero s => sign s ++ list_ascii_of_string "0.0"
    | S754_infinity s => sign s ++ list_ascii_of_string "inf"
    | S754_nan => list_ascii_of_string "nan"
    | S754_finite s m e => sign s ++ finite m e
    end.

(** [str] of an [int]. *)
Definition int (z : Z) : string := NilZero.string_of_int (Z.to_int z).

End Repr.

(** ['{}'.format(x)] and [str(x)] for a number. *)
Definition format (x : number) : string :=
  match x with
  | PInt z => Repr.int z
  | PFloat f => Repr.float f
  end.

(** ** The Transformer and the world it runs in *)

Record Transformer : Type := mkTransformer {
  globals : list string;
  input_format : list string;
  output_format : list string;
  effects : list string;
  effects_log : list string
}.

Inductive exn : Type :=
| ValueError (msg : string)
| TypeError (msg : string)
| NotImplementedError
| OverflowError
| IndexError
| IOError (msg : string)
| SoxError (msg : string).

Inductive level : Type := INFO | WARNING.

(** A call that leaves the module: to [sox.file_info] or to [sox.core]. *)
Inductive invocation : Type :=
| Validate_input_file (path : string)
| Validate_output_file (path : string)
| Sox (args : list string)
| Play (args : list string).

Record World : Type := mkWorld {
  self : Transformer;
  logged : list (level * string);
  invoked : list invocation;
  drawn : nat
}.

(** The result of running a method body: it returns, or it raises. *)
Inductive outcome (A : Type) : Type :=
| Returns (a : A)
| Raises (e : exn).
Arguments Returns {A} a.
Arguments Raises {A} e.

Definition M (A : Type) : Type := World -> outcome A * World.

Definition ret {A} (a : A) : M A := fun w => (Returns a, w).

Definition bind {A B} (c : M A) (k : A -> M B) : M B :=
  fun w =>
    match c w with
    | (Returns a, w') => k a w'
    | (Raises e, w') => (Raises e, w')
    end.

Definition raise {A} (e : exn) : M A := fun w => (Raises e, w).

Declare Scope py_scope.
Delimit Scope py_scope with M.
Notation "x <- c ;; k" := (bind c (fun x => k))
  (at level 61, c at next level, right associativity) : py_scope.
Notation "c ;; k" := (bind c (fun _ => k))
  (at level 61, right associativity) : py_scope.
Local Open Scope py_scope.

(** [if cond: raise e] *)
Definition raise_if (cond : bool) (e : exn) : M unit :=
  if cond then raise e else ret tt.

Definition get_self : M Transformer := fun w => (Returns (self w), w).

Definition modify_self (f : Transformer -> Transformer) : M unit :=
  fun w => (Returns tt,
            mkWorld (f (self w)) (logged w) (invoked w) (drawn w)).

(** [self.effects.extend(effect_args)] *)
Definition extend_effects (effect_args : list string) : M unit :=
  modify_self (fun t =>
    mkTransformer (globals t) (input_format t) (output_format t)
      (effects t ++ effect_args) (effects_log t)).

(** [self.effects_log.append(name)] *)
Definition append_effects_log (name : string) : M unit :=
  modify_self (fun t =>
    mkTransformer (globals t) (input_format t) (output_format t)
      (effects t) (effects_log t ++ [name])).

(** [self.output_format.extend(args)] *)
Definition extend_output_format (args : list string) : M unit :=
  modify_self (fun t =>
    mkTransformer (globals t) (input_format t) (output_format t ++ args)
      (effects t) (effects_log t)).

(** [self.globals = global_args] *)
Definition assign_globals (global_args : list string) : M unit :=
  modify_self (fun t =>
    mkTransformer global_args (input_format t) (output_format t)
      (effects t) (effects_log t)).

(** [self.input_format = input_format] *)
Definition assign_input_format (args : list string) : M unit :=
  modify_self (fun t =>
    mkTransformer (globals t) args (output_format t)
      (effects t) (effects_log t)).

(** [self.output_format = output_format] *)
Definition assign_output_format (args : list string) : M unit :=
  modify_self (fun t =>
    mkTransformer (globals t) (input_format t) args
      (effects t) (effects_log t)).

(** [logging.warning(msg)], [logging.info(msg)] *)
Definition logging (l : level) (msg : string) : M unit :=
  fun w => (Returns tt,
            mkWorld (self w) (logged w ++ [(l, msg)]) (invoked w) (drawn w)).

Definition invoke (i : invocation) : M unit :=
  fun w => (Returns tt,
            mkWorld (self w) (logged w) (invoked w ++ [i]) (drawn w)).

(** One draw from [random]: its index in the sequence of draws. *)
Definition draw : M nat :=
  fun w => (Returns (drawn w),
            mkWorld (self w) (logged w) (invoked w) (S (drawn w))).

(** [x in l] for strings, and [x in l + [None]] for an optional one. *)
Definition in_list (x : string) (l : list string) : bool :=
  existsb (String.eqb x) l.

Definition in_list_or_None (x : option string) (l : list string) : bool :=
  match x with
  | None => true
  | Some s => in_list s l
  end.

(** [if flag: args.extend(toks)] leaves [toks] or nothing. *)
Definition when (flag : bool) (toks : list string) : list string :=
  if flag then toks else [].

(** [if x is not None: args.extend(toks(x))] *)
Definition unless_None {A} (x : option A) (toks : A -> list string)
  : list string :=
  match x with
  | Some a => toks a
  | None => []
  end.

Definition VERBOSITY_VALS : list Z := [0; 1; 2; 3; 4].

Definition ENCODING_VALS : list string :=
  ["signed-integer"; "unsigned-integer"; "floating-point"; "a-law"; "u-law";
   "oki-adpcm"; "ima-adpcm"; "ms-adpcm"; "gsm-full-rate"].

(** [for x in xs: ...] collecting one result per element. *)
Fixpoint for_each {A B} (body : A -> M B) (xs : list A) : M (list B) :=
  match xs with
  | [] => ret []
  | x :: xs' =>
      b <- body x ;;
      bs <- for_each body xs' ;;
      ret (b :: bs)
  end.

(** [xs[i]] *)
Definition item {A} (xs : list A) (i : nat) : M A :=
  match nth_error xs i with
  | Some x => ret x
  | None => raise IndexError
  end.

(** The value of an arithmetic expression, or its [OverflowError]. *)
Definition arithmetic (r : option number) : M number :=
  match r with
  | Some x => ret x
  | None => raise OverflowError
  end.

(** [range(n)] *)
Definition range (n : Z) : list nat := seq 0 (Z.to_nat n).

(** ** The collaborators

    [sox.core] and [sox.file_info] are outside the sources; the
    Transformer sees them only through these entry points.  A validator
    and [play] either return or raise; [sox] returns the exit status and
    the captured output streams.  The two functions of [random] are
    given by the index of the draw.

    Python's own [sorted] is taken the same way: [sorted] stands for
    [sorted(points, key=lambda p: p[0])].  The language fixes its result
    where the keys are ordered among themselves; on keys that are not (a
    NaN), the arrangement is the interpreter's, and nothing is assumed
    of it here beyond what [sorts_by_x] says. *)

Record Collaborators : Type := mkCollaborators {
  VALID_FORMATS : list string;
  validate_input_file : string -> option exn;
  validate_output_file : string -> option exn;
  sox : list string -> Z * option string * option string;
  play : list string -> option exn;
  random_uniform : nat -> number -> number -> float;
  random_choice : nat -> list string -> string;
  sorted : list (number * number) -> list (number * number)
}.

(** Calls a collaborator that returns nothing and may raise. *)
Definition collaborate (i : invocation) (result : option exn) : M unit :=
  invoke i ;;
  match result with
  | Some e => raise e
  | None => ret tt
  end.

(** ['{}'.format(x)] for an optional text: [None] prints its name. *)
Definition format_text (x : option string) : string :=
  match x with
  | Some s => s
  | None => "None"
  end.

(** ['{}'.format(l)] for a list of texts. *)
Definition list_repr (l : list string) : string :=
  ("[" ++ String.concat ", " (map (fun s => "'" ++ s ++ "'") l) ++ "]")%string.

Definition newline : string := String (ascii_of_nat 10) EmptyString.

Section Transformer.

Context (env : Collaborators).

Definition set_globals (dither guard multithread replay_gain : bool)
    (verbosity : Z) : M unit :=
  raise_if (negb (existsb (Z.eqb verbosity) VERBOSITY_VALS))
    (ValueError "Invalid value for VERBOSITY. Must be one [0, 1, 2, 3, 4]") ;;
  let global_args :=
    when (negb dither) ["-D"]
    ++ when guard ["-G"]
    ++ when multithread ["--multi-threaded"]
    ++ when replay_gain ["--replay-gain"; "track"]
    ++ [("-V" ++ Repr.int verbosity)%string] in
  assign_globals global_args.

(** [Transformer()]: every sequence empty, then [self.set_globals()]
    with its defaults. *)
Definition init : M unit :=
  modify_self (fun _ => mkTransformer [] [] [] [] []) ;;
  set_globals false false false false 2.

(** The checks shared by the two format setters. *)
Definition validate_format (file_type : option string) (rate : option number)
    (bits channels : option Z) (encoding : option string) : M unit :=
  raise_if (negb (in_list_or_None file_type (VALID_FORMATS env)))
    (ValueError
       ("Invalid file_type. Must be one of "
        ++ list_repr (VALID_FORMATS env))) ;;
  raise_if (match rate with Some r => negb (is_number r) | None => false end)
    (ValueError "rate must be a float or None") ;;
  raise_if (match rate with Some r => (r <=? PInt 0)%py | None => false end)
    (ValueError "rate must be a positive number") ;;
  raise_if (match bits with Some b => b <=? 0 | None => false end)
    (ValueError "bits must be a positive number") ;;
  raise_if (match channels with Some c => c <=? 0 | None => false end)
    (ValueError "channels must be a positive number") ;;
  raise_if (negb (in_list_or_None encoding ENCODING_VALS))
    (ValueError
       ("Invalid encoding. Must be one of " ++ list_repr ENCODING_VALS)).

(** The tokens shared by the two format setters. *)
Definition format_args (file_type : option string) (rate : option number)
    (bits channels : option Z) (encoding : option string) : list string :=
  unless_None file_type (fun t => ["-t"; t])
  ++ unless_None rate (fun r => ["-r"; format r])
  ++ unless_None bits (fun b => ["-b"; Repr.int b])
  ++ unless_None channels (fun c => ["-c"; Repr.int c])
  ++ unless_None encoding (fun e => ["-e"; e]).

Definition set_input_format (file_type : option string)
    (rate : option number) (bits channels : option Z)
    (encoding : option string) (ignore_length : bool) : M unit :=
  validate_format file_type rate bits channels encoding ;;
  let input_format :=
    format_args file_type rate bits channels encoding
    ++ when ignore_length ["--ignore-length"] in
  assign_input_format input_format.

Definition set_output_format (file_type : option string)
    (rate : option number) (bits channels : option Z)
    (encoding comments : option string) (append_comments : bool) : M unit :=
  validate_format file_type rate bits channels encoding ;;
  let output_format :=
    format_args file_type rate bits channels encoding
    ++ unless_None comments (fun c =>
         if append_comments then ["--add-comment"; c] else ["--comment"; c]) in
  assign_output_format output_format.

Definition build (input_filepath output_filepath : string) : M bool :=
  collaborate (Validate_input_file input_filepath)
    (validate_input_file env input_filepath) ;;
  collaborate (Validate_output_file output_filepath)
    (validate_output_file env output_filepath) ;;
  t <- get_self ;;
  let args :=
    globals t ++ input_format t ++ [input_filepath]
    ++ output_format t ++ [output_filepath] ++ effects t in
  invoke (Sox args) ;;
  let '(status, out, err) := sox env args in
  if negb (status =? 0) then
    raise (SoxError ("Stdout: " ++ format_text out ++ newline
                     ++ "Stderr: " ++ format_text err)%string)
  else
    logging INFO ("Created " ++ output_filepath ++ " with effects: "
                  ++ String.concat " " (effects_log t))%string ;;
    match out with
    | Some o => logging INFO ("[SoX] " ++ o)%string
    | None => ret tt
    end ;;
    ret true.

Definition preview (input_filepath : string) : M unit :=
  t <- get_self ;;
  let args :=
    ["play"; "--no-show-progress"] ++ globals t ++ input_format t
    ++ [input_filepath] ++ effects t in
  collaborate (Play args) (play env args).

(** *** Effects *)

Definition allpass (frequency width_q : number) : M unit :=
  raise_if (negb (is_number frequency) || (frequency <=? PInt 0)%py)
    (ValueError "frequency must be a positive number.") ;;
  raise_if (negb (is_number width_q) || (width_q <=? PInt 0)%py)
    (ValueError "width_q must be a positive number.") ;;
  let effect_args :=
    ["allpass"; format frequency; (format width_q ++ "q")%string] in
  extend_effects effect_args ;;
  append_effects_log "allpass".

Definition bandpass (frequency width_q : number) (constant_skirt : bool)
  : M unit :=
  raise_if (negb (is_number frequency) || (frequency <=? PInt 0)%py)
    (ValueError "frequency must be a positive number.") ;;
  raise_if (negb (is_number width_q) || (width_q <=? PInt 0)%py)
    (ValueError "width_q must be a positive number.") ;;
  let effect_args :=
    ["bandpass"] ++ when constant_skirt ["-c"]
    ++ [format frequency; (format width_q ++ "q")%string] in
  extend_effects effect_args ;;
  append_effects_log "bandpass".

Definition bandreject (frequency width_q : number) : M unit :=
  raise_if (negb (is_number frequency) || (frequency <=? PInt 0)%py)
    (ValueError "frequency must be a positive number.") ;;
  raise_if (negb (is_number width_q) || (width_q <=? PInt 0)%py)
    (ValueError "width_q must be a positive number.") ;;
  let effect_args :=
    ["bandreject"; format frequency; (format width_q ++ "q")%string] in
  extend_effects effect_args ;;
  append_effects_log "bandreject".

Definition bass (gain_db frequency slope : number) : M unit :=
  raise_if (negb (is_number gain_db))
    (ValueError "gain_db must be a number") ;;
  raise_if (negb (is_number frequency) || (frequency <=? PInt 0)%py)
    (ValueError "frequency must be a positive number.") ;;
  raise_if (negb (is_number slope) || (slope <=? PInt 0)%py
            || (slope >? PFloat 1)%py)
    (ValueError "width_q must be a positive number.") ;;
  let effect_args :=
    ["bass"; format gain_db; format frequency;
     (format slope ++ "s")%string] in
  extend_effects effect_args ;;
  append_effects_log "bass".

Definition bend : M unit := raise NotImplementedError.

Definition biquad (b a : list number) : M unit :=
  raise_if (negb (Nat.eqb (List.length b) 3))
    (ValueError "b must be a length 3 list.") ;;
  raise_if (negb (Nat.eqb (List.length a) 3))
    (ValueError "a must be a length 3 list.") ;;
  raise_if (negb (forallb is_number b))
    (ValueError "all elements of b must be numbers.") ;;
  raise_if (negb (forallb is_number a))
    (ValueError "all elements of a must be numbers.") ;;
  b0 <- item b 0 ;; b1 <- item b 1 ;; b2 <- item b 2 ;;
  a0 <- item a 0 ;; a1 <- item a 1 ;; a2 <- item a 2 ;;
  let effect_args :=
    ["biquad"; format b0; format b1; format b2;
     format a0; format a1; format a2] in
  extend_effects effect_args ;;
  append_effects_log "biquad".

Definition channels (n_channels : Z) : M unit :=
  raise_if (n_channels <=? 0)
    (ValueError "n_channels must be a positive integer.") ;;
  let effect_args := ["channels"; Repr.int n_channels] in
  extend_effects effect_args ;;
  append_effects_log "channels".

(** One of the per-voice lists of [chorus]: checked when given, drawn
    from [random] when omitted. *)
Definition voices {A} (n_voices : Z) (given : option (list A))
    (bad : A -> bool) (wrong_length out_of_range : string)
    (random : nat -> A) : M (list A) :=
  match given with
  | Some xs =>
      raise_if (negb (Z.of_nat (List.length xs) =? n_voices))
        (ValueError wrong_length) ;;
      raise_if (existsb bad xs) (ValueError out_of_range) ;;
      ret xs
  | None =>
      for_each (fun _ => i <- draw ;; ret (random i)) (range n_voices)
  end.

Definition chorus (gain_in gain_out : number) (n_voices : Z)
    (delays decays speeds depths : option (list number))
    (shapes : option (list string)) : M unit :=
  raise_if (negb (is_number gain_in) || (gain_in <=? PInt 0)%py
            || (gain_in >? PInt 1)%py)
    (ValueError "gain_in must be a number between 0 and 1.") ;;
  raise_if (negb (is_number gain_out) || (gain_out <=? PInt 0)%py
            || (gain_out >? PInt 1)%py)
    (ValueError "gain_out must be a number between 0 and 1.") ;;
  raise_if (n_voices <=? 0)
    (ValueError "n_voices must be a positive integer.") ;;
  delays <- voices n_voices delays
    (fun p => negb (is_number p) || (p <? PInt 20)%py)
    "the length of delays must equal n_voices"
    "the elements of delays must be numbers > 20"
    (fun i => PFloat (random_uniform env i (PInt 40) (PInt 60))) ;;
  decays <- voices n_voices decays
    (fun p => negb (is_number p) || (p <=? PInt 0)%py || (p >? PInt 1)%py)
    "the length of decays must equal n_voices"
    "the elements of decays must be between 0 and 1"
    (fun i => PFloat (random_uniform env i (PFloat 0.3) (PFloat 0.4))) ;;
  speeds <- voices n_voices speeds
    (fun p => negb (is_number p) || (p <=? PInt 0)%py)
    "the length of speeds must equal n_voices"
    "the elements of speeds must be numbers > 0"
    (fun i => PFloat (random_uniform env i (PFloat 0.25) (PFloat 0.4))) ;;
  depths <- voices n_voices depths
    (fun p => negb (is_number p) || (p <=? PInt 0)%py)
    "the length of depths must equal n_voices"
    "the elements of depths must be numbers > 0"
    (fun i => PFloat (random_uniform env i (PFloat 1) (PFloat 3))) ;;
  shapes <- voices n_voices shapes
    (fun p => negb (in_list p ["t"; "s"]))
    "the length of shapes must equal n_voices"
    "the elements of shapes must be 's' or 't'"
    (fun i => random_choice env i ["t"; "s"]) ;;
  per_voice <- for_each (fun i =>
      delay <- item delays i ;;
      decay <- item decays i ;;
      speed <- item speeds i ;;
      depth <- item depths i ;;
      shape <- item shapes i ;;
      ret [format delay; format decay; format speed; format depth;
           ("-" ++ shape)%string])
    (range n_voices) ;;
  let effect_args :=
    ["chorus"; format gain_in; format gain_out] ++ List.concat per_voice in
  extend_effects effect_args ;;
  append_effects_log "chorus".

(** [set(xs)]: one representative of each class of equal numbers.  A NaN
    equals no number, itself included, so every NaN is a member of its
    own; numbers are values here, and the case of one NaN object listed
    twice, which Python would merge, has no counterpart. *)
Fixpoint set (xs : list number) : list number :=
  match xs with
  | [] => []
  | x :: rest => if existsb (Num.eqb x) rest then set rest else x :: set rest
  end.

Definition compand (attack_time decay_time : number)
    (soft_knee_db : option number) (tf_points : list (number * number))
  : M unit :=
  raise_if (negb (is_number attack_time) || (attack_time <=? PInt 0)%py)
    (ValueError "attack_time must be a positive number.") ;;
  raise_if (negb (is_number decay_time) || (decay_time <=? PInt 0)%py)
    (ValueError "decay_time must be a positive number.") ;;
  (if (attack_time >? decay_time)%py
   then logging WARNING
          ("attack_time is larger than decay_time." ++ newline
           ++ "For most situations, attack_time should be shorter than "
           ++ "decay time because the human ear is more sensitive to sudden "
           ++ "loud music than sudden soft music.")%string
   else ret tt) ;;
  raise_if (match soft_knee_db with
            | Some k => negb (is_number k)
            | None => false
            end)
    (ValueError "soft_knee_db must be a number or None.") ;;
  raise_if (Nat.eqb (List.length tf_points) 0)
    (ValueError "tf_points must have at least one point.") ;;
  raise_if (existsb (fun p => negb (is_number (fst p) && is_number (snd p)))
              tf_points)
    (ValueError "Tuples in tf_points must be pairs of numbers.") ;;
  raise_if (existsb (fun p => (fst p >? PInt 0)%py || (snd p >? PInt 0)%py)
              tf_points)
    (ValueError "Tuple values in tf_points must be <= 0 (dB).") ;;
  raise_if (Nat.ltb (List.length (set (map fst tf_points)))
              (List.length tf_points))
    (ValueError "Found duplicate x-value in tf_points.") ;;
  let tf_points := sorted env tf_points in
  let transfer_list :=
    flat_map (fun point => [format (fst point); format (snd point)])
      tf_points in
  let effect_args :=
    ["compand"; (format attack_time ++ "," ++ format decay_time)%string]
    ++ match soft_knee_db with
       | Some k =>
           [(format k ++ ":" ++ String.concat "," transfer_list)%string]
       | None => [String.concat "," transfer_list]
       end in
  extend_effects effect_args ;;
  append_effects_log "compand".

Definition contrast (amount : number) : M unit :=
  raise_if (negb (is_number amount) || (amount <? PInt 0)%py
            || (amount >? PInt 100)%py)
    (ValueError "amount must be a number between 0 and 100.") ;;
  let effect_args := ["contrast"; format amount] in
  extend_effects effect_args ;;
  append_effects_log "contrast".

Definition rate (samplerate : number) (quality : string) : M unit :=
  let quality_vals := ["q"; "l"; "m"; "h"; "v"] in
  raise_if (negb (is_number samplerate) || (samplerate <=? PInt 0)%py)
    (ValueError "Samplerate must be a positive number.") ;;
  raise_if (negb (in_list quality quality_vals))
    (ValueError "Quality must be one of q l m h v.") ;;
  let effect_args := ["rate"; ("-" ++ quality)%string; format samplerate] in
  extend_effects effect_args ;;
  append_effects_log "rate".

(** [convert] checks and writes one argument after the other: the bit
    depth and the channel count go to the output format, the sample rate
    to the [rate] effect with its default quality. *)
Definition convert (samplerate : option number) (n_channels bitdepth : option Z)
  : M unit :=
  let bitdepths := [8; 16; 24; 32; 64] in
  match bitdepth with
  | Some b =>
      raise_if (negb (existsb (Z.eqb b) bitdepths))
        (ValueError "bitdepth must be one of [8, 16, 24, 32, 64].") ;;
      extend_output_format ["-b"; Repr.int b]
  | None => ret tt
  end ;;
  match n_channels with
  | Some c =>
      raise_if (c <=? 0)
        (ValueError "n_channels must be a positive integer.") ;;
      extend_output_format ["-c"; Repr.int c]
  | None => ret tt
  end ;;
  match samplerate with
  | Some r =>
      raise_if (negb (is_number r) || (r <=? PInt 0)%py)
        (ValueError "samplerate must be a positive number.") ;;
      rate r "h"
  | None => ret tt
  end.

Definition dcshift (shift : number) : M unit :=
  raise_if (negb (is_number shift) || (shift <? PInt (-2))%py
            || (shift >? PInt 2)%py)
    (ValueError "shift must be a number between -2 and 2.") ;;
  let effect_args := ["dcshift"; format shift] in
  extend_effects effect_args ;;
  append_effects_log "dcshift".

Definition deemph : M unit :=
  let effect_args := ["deemph"] in
  extend_effects effect_args ;;
  append_effects_log "deemph".

Definition delay (positions : list number) : M unit :=
  raise_if (negb (forallb (fun p => is_number p && (p >=? PInt 0)%py)
                    positions))
    (ValueError "positions must be positive nubmers") ;;
  let effect_args := ["delay"] ++ map format positions in
  extend_effects effect_args ;;
  append_effects_log "delay".

Definition downsample (factor : Z) : M unit :=
  raise_if (factor <? 1) (ValueError "factor must be a positive integer.") ;;
  let effect_args := ["downsample"; Repr.int factor] in
  extend_effects effect_args ;;
  append_effects_log "downsample".

Definition earwax : M unit :=
  let effect_args := ["earwax"] in
  extend_effects effect_args ;;
  append_effects_log "earwax".

Definition echo : M unit := raise NotImplementedError.

Definition echos : M unit := raise NotImplementedError.

Definition equalizer (frequency width_q gain_db : number) : M unit :=
  raise_if (negb (is_number frequency) || (frequency <=? PInt 0)%py)
    (ValueError "frequency must be a positive number.") ;;
  raise_if (negb (is_number width_q) || (width_q <=? PInt 0)%py)
    (ValueError "width_q must be a positive number.") ;;
  raise_if (negb (is_number gain_db))
    (ValueError "gain_db must be a number.") ;;
  let effect_args :=
    ["equalizer"; format frequency; (format width_q ++ "q")%string;
     format gain_db] in
  extend_effects effect_args ;;
  append_effects_log "equalizer".

Definition fade (fade_in_len fade_out_len : number) (fade_shape : string)
  : M unit :=
  let fade_shapes := ["q"; "h"; "t"; "l"; "p"] in
  raise_if (negb (in_list fade_shape fade_shapes))
    (ValueError "Fade shape must be one of q h t l p") ;;
  raise_if (negb (is_number fade_in_len) || (fade_in_len <? PInt 0)%py)
    (ValueError "fade_in_len must be a nonnegative number.") ;;
  raise_if (negb (is_number fade_out_len) || (fade_out_len <? PInt 0)%py)
    (ValueError "fade_out_len must be a nonnegative number.") ;;
  let effect_args :=
    when (fade_in_len >? PInt 0)%py
      ["fade"; fade_shape; format fade_in_len]
    ++ when (fade_out_len >? PInt 0)%py
      ["reverse"; "fade"; fade_shape; format fade_out_len; "reverse"] in
  if Nat.ltb 0 (List.length effect_args) then
    extend_effects effect_args ;;
    append_effects_log "fade"
  else ret tt.

Definition fir : M unit := raise NotImplementedError.

Definition flanger : M unit := raise NotImplementedError.

Definition gain (gain_db : number) (normalize limiter : bool)
    (balance : option string) : M unit :=
  raise_if (negb (is_number gain_db))
    (ValueError "gain_db must be a number.") ;;
  raise_if (negb (in_list_or_None balance ["e"; "B"; "b"]))
    (ValueError "balance must be one of None, 'e', 'B', or 'b'.") ;;
  let effect_args :=
    ["gain"]
    ++ unless_None balance (fun b => [("-" ++ b)%string])
    ++ when normalize ["-n"]
    ++ when limiter ["-l"]
    ++ [format gain_db] in
  extend_effects effect_args ;;
  append_effects_log "gain".

Definition highpass (frequency width_q : number) (n_poles : Z) : M unit :=
  raise_if (negb (is_number frequency) || (frequency <=? PInt 0)%py)
    (ValueError "frequency must be a positive number.") ;;
  raise_if (negb (is_number width_q) || (width_q <=? PInt 0)%py)
    (ValueError "width_q must be a positive number.") ;;
  raise_if (negb (existsb (Z.eqb n_poles) [1; 2]))
    (ValueError "n_poles must be 1 or 2.") ;;
  let effect_args :=
    ["highpass"; ("-" ++ Repr.int n_poles)%string; format frequency]
    ++ when (n_poles =? 2) [(format width_q ++ "q")%string] in
  extend_effects effect_args ;;
  append_effects_log "highpass".

Definition lowpass (frequency width_q : number) (n_poles : Z) : M unit :=
  raise_if (negb (is_number frequency) || (frequency <=? PInt 0)%py)
    (ValueError "frequency must be a positive number.") ;;
  raise_if (negb (is_number width_q) || (width_q <=? PInt 0)%py)
    (ValueError "width_q must be a positive number.") ;;
  raise_if (negb (existsb (Z.eqb n_poles) [1; 2]))
    (ValueError "n_poles must be 1 or 2.") ;;
  let effect_args :=
    ["lowpass"; ("-" ++ Repr.int n_poles)%string; format frequency]
    ++ when (n_poles =? 2) [(format width_q ++ "q")%string] in
  extend_effects effect_args ;;
  append_effects_log "lowpass".

Definition hilbert : M unit := raise NotImplementedError.

Definition loudness (gain_db reference_level : number) : M unit :=
  raise_if (negb (is_number gain_db))
    (ValueError "gain_db must be a number.") ;;
  raise_if (negb (is_number reference_level))
    (ValueError "reference_level must be a number") ;;
  raise_if ((reference_level >? PInt 75)%py
            || (reference_level <? PInt 50)%py)
    (ValueError "reference_level must be between 50 and 75") ;;
  let effect_args :=
    ["loudness"; format gain_db; format reference_level] in
  extend_effects effect_args ;;
  append_effects_log "loudness".

Definition mcompand : M unit := raise NotImplementedError.

Definition noisered : M unit := raise NotImplementedError.

Definition norm (db_level : number) : M unit :=
  raise_if (negb (is_number db_level))
    (ValueError "db_level must be a number.") ;;
  let effect_args := ["norm"; format db_level] in
  extend_effects effect_args ;;
  append_effects_log "norm".

Definition oops : M unit := raise NotImplementedError.

Definition overdrive (gain_db colour : number) : M unit :=
  raise_if (negb (is_number gain_db))
    (ValueError "db_level must be a number.") ;;
  raise_if (negb (is_number colour))
    (ValueError "colour must be a number.") ;;
  let effect_args := ["overdrive"; format gain_db; format colour] in
  extend_effects effect_args ;;
  append_effects_log "overdrive".

Definition pad (start_duration end_duration : number) : M unit :=
  raise_if (negb (is_number start_duration)
            || (start_duration <? PInt 0)%py)
    (ValueError "Start duration must be a positive number.") ;;
  raise_if (negb (is_number end_duration) || (end_duration <? PInt 0)%py)
    (ValueError "End duration must be positive.") ;;
  let effect_args :=
    ["pad"; format start_duration; format end_duration] in
  extend_effects effect_args ;;
  append_effects_log "pad".

Definition phaser : M unit := raise NotImplementedError.

Definition pitch (n_semitones : number) (quick : bool) : M unit :=
  raise_if (negb (is_number n_semitones))
    (ValueError "n_semitones must be a positive number") ;;
  (if (n_semitones <? PInt (-12))%py || (n_semitones >? PInt 12)%py
   then logging WARNING
          "Using an extreme pitch shift. Quality of results will be poor"
   else ret tt) ;;
  let effect_args := ["pitch"] ++ when quick ["-q"] in
  cents <- arithmetic (Num.mul n_semitones (PFloat 100)) ;;
  let effect_args := effect_args ++ [format cents] in
  extend_effects effect_args ;;
  append_effects_log "pitch".

Definition remix : M unit := raise NotImplementedError.

Definition repeat : M unit := raise NotImplementedError.

Definition reverb (reverberance high_freq_damping room_scale stereo_depth
    pre_delay wet_gain : number) (wet_only : bool) : M unit :=
  raise_if (negb (is_number reverberance) || (reverberance <? PInt 0)%py
            || (reverberance >? PInt 100)%py)
    (ValueError "reverberance must be between 0 and 100") ;;
  raise_if (negb (is_number high_freq_damping)
            || (high_freq_damping <? PInt 0)%py
            || (high_freq_damping >? PInt 100)%py)
    (ValueError "high_freq_damping must be between 0 and 100") ;;
  raise_if (negb (is_number room_scale) || (room_scale <? PInt 0)%py
            || (room_scale >? PInt 100)%py)
    (ValueError "room_scale must be between 0 and 100") ;;
  raise_if (negb (is_number stereo_depth) || (stereo_depth <? PInt 0)%py
            || (stereo_depth >? PInt 100)%py)
    (ValueError "stereo_depth must be between 0 and 100") ;;
  raise_if (negb (is_number pre_delay) || (pre_delay <? PInt 0)%py)
    (ValueError "pre_delay must be a positive number") ;;
  raise_if (negb (is_number wet_gain))
    (ValueError "wet_gain must be a number") ;;
  let effect_args :=
    ["reverb"] ++ when wet_only ["-w"]
    ++ [format reverberance; format high_freq_damping; format room_scale;
        format stereo_depth; format pre_delay; format wet_gain] in
  extend_effects effect_args ;;
  append_effects_log "reverb".

Definition reverse : M unit :=
  let effect_args := ["reverse"] in
  extend_effects effect_args ;;
  append_effects_log "reverse".

Definition silence (location : Z)
    (silence_threshold min_silence_duration : number)
    (buffer_around_silence : bool) : M unit :=
  raise_if (negb (existsb (Z.eqb location) [-1; 0; 1]))
    (ValueError "location must be one of -1, 0, 1.") ;;
  raise_if (negb (is_number silence_threshold)
            || (silence_threshold <? PInt 0)%py)
    (ValueError "silence_threshold must be a number between 0 and 100") ;;
  raise_if (silence_threshold >=? PInt 100)%py
    (ValueError "silence_threshold must be a number between 0 and 100") ;;
  raise_if (negb (is_number min_silence_duration)
            || (min_silence_duration <=? PInt 0)%py)
    (ValueError "min_silence_duration must be a positive number.") ;;
  let effect_args :=
    when (location =? -1) ["reverse"]
    ++ (if buffer_around_silence then ["silence"; "-l"] else ["silence"])
    ++ ["1"; format min_silence_duration;
        (format silence_threshold ++ "%")%string]
    ++ when (location =? 0)
         ["-1"; format min_silence_duration;
          (format silence_threshold ++ "%")%string]
    ++ when (location =? -1) ["reverse"] in
  extend_effects effect_args ;;
  append_effects_log "silence".

Definition sinc : M unit := raise NotImplementedError.

Definition speed : M unit := raise NotImplementedError.

Definition splice : M unit := raise NotImplementedError.

Definition swap : M unit :=
  let effect_args := ["swap"] in
  extend_effects effect_args ;;
  append_effects_log "swap".

Definition stretch : M unit := raise NotImplementedError.

Definition tempo (factor : number) (audio_type : option string)
    (quick : bool) : M unit :=
  raise_if (negb (is_number factor) || (factor <=? PInt 0)%py)
    (ValueError "factor must be a positive number") ;;
  (if (factor <? PFloat 0.5)%py || (factor >? PInt 2)%py
   then logging WARNING
          ("Using an extreme time stretching factor. "
           ++ "Quality of results will be poor")%string
   else ret tt) ;;
  raise_if (negb (in_list_or_None audio_type ["m"; "s"; "l"]))
    (ValueError "audio_type must be one of None, 'm', 's', or 'l'.") ;;
  let effect_args :=
    ["tempo"] ++ when quick ["-q"]
    ++ unless_None audio_type (fun a => [("-" ++ a)%string])
    ++ [format factor] in
  extend_effects effect_args ;;
  append_effects_log "tempo".

Definition treble (gain_db frequency slope : number) : M unit :=
  raise_if (negb (is_number gain_db))
    (ValueError "gain_db must be a number") ;;
  raise_if (negb (is_number frequency) || (frequency <=? PInt 0)%py)
    (ValueError "frequency must be a positive number.") ;;
  raise_if (negb (is_number slope) || (slope <=? PInt 0)%py
            || (slope >? PFloat 1)%py)
    (ValueError "width_q must be a positive number.") ;;
  let effect_args :=
    ["treble"; format gain_db; format frequency;
     (format slope ++ "s")%string] in
  extend_effects effect_args ;;
  append_effects_log "treble".

Definition tremolo (speed depth : number) : M unit :=
  raise_if (negb (is_number speed) || (speed <=? PInt 0)%py)
    (ValueError "speed must be a positive number.") ;;
  raise_if (negb (is_number depth) || (depth <=? PInt 0)%py
            || (depth >? PInt 100)%py)
    (ValueError "depth must be a positive number less than 100.") ;;
  let effect_args := ["tremolo"; format speed; format depth] in
  extend_effects effect_args ;;
  append_effects_log "tremolo".

Definition trim (start_time end_time : number) : M unit :=
  raise_if (negb (is_number start_time) || (start_time <? PInt 0)%py)
    (ValueError "start_time must be a positive number.") ;;
  raise_if (negb (is_number end_time) || (end_time <? PInt 0)%py)
    (ValueError "end_time must be a positive number.") ;;
  raise_if (start_time >=? end_time)%py
    (ValueError "start_time must be smaller than end_time.") ;;
  duration <- arithmetic (Num.sub end_time start_time) ;;
  let effect_args := ["trim"; format start_time; format duration] in
  extend_effects effect_args ;;
  append_effects_log "trim".

Definition upsample (factor : Z) : M unit :=
  raise_if (factor <? 1) (ValueError "factor must be a positive integer.") ;;
  let effect_args := ["upsample"; Repr.int factor] in
  extend_effects effect_args ;;
  append_effects_log "upsample".

Definition vad (location : Z) (normalize : bool)
    (activity_threshold min_activity_duration initial_search_buffer
     max_gap initial_pad : number) : M unit :=
  raise_if (negb (existsb (Z.eqb location) [-1; 1]))
    (ValueError "location must be -1 or 1.") ;;
  raise_if (negb (is_number activity_threshold))
    (ValueError "activity_threshold must be a number.") ;;
  raise_if (negb (is_number min_activity_duration)
            || (min_activity_duration <? PInt 0)%py)
    (ValueError "min_activity_duration must be a positive number") ;;
  raise_if (negb (is_number initial_search_buffer)
            || (initial_search_buffer <? PInt 0)%py)
    (ValueError "initial_search_buffer must be a positive number") ;;
  raise_if (negb (is_number max_gap) || (max_gap <? PInt 0)%py)
    (ValueError "max_gap must be a positive number.") ;;
  raise_if (negb (is_number initial_pad) || (initial_pad <? PInt 0)%py)
    (ValueError "initial_pad must be a positive number.") ;;
  let effect_args :=
    when normalize ["norm"]
    ++ when (location =? -1) ["reverse"]
    ++ ["vad";
        "-t"; format activity_threshold;
        "-T"; format min_activity_duration;
        "-s"; format initial_search_buffer;
        "-g"; format max_gap;
        "-p"; format initial_pad]
    ++ when (location =? -1) ["reverse"] in
  extend_effects effect_args ;;
  append_effects_log "vad".

(** *** Calls

    A call of a builder method with its arguments, so that a sequence of
    calls is a value.  The caller of a method that raises catches the
    exception and goes on with the same Transformer. *)

(** The methods that are declared and not implemented. *)
Inductive stub : Type :=
| Bend | Echo | Echos | Fir | Flanger | Hilbert | Mcompand | Noisered
| Oops | Phaser | Remix | Repeat | Sinc | Speed | Splice | Stretch.

Inductive call : Type :=
| Set_globals (dither guard multithread replay_gain : bool) (verbosity : Z)
| Set_input_format (file_type : option string) (rate : option number)
    (bits channels : option Z) (encoding : option string)
    (ignore_length : bool)
| Set_output_format (file_type : option string) (rate : option number)
    (bits channels : option Z) (encoding comments : option string)
    (append_comments : bool)
| Convert (samplerate : option number) (n_channels bitdepth : option Z)
| Allpass (frequency width_q : number)
| Bandpass (frequency width_q : number) (constant_skirt : bool)
| Bandreject (frequency width_q : number)
| Bass (gain_db frequency slope : number)
| Biquad (b a : list number)
| Channels (n_channels : Z)
| Chorus (gain_in gain_out : number) (n_voices : Z)
    (delays decays speeds depths : option (list number))
    (shapes : option (list string))
| Compand (attack_time decay_time : number) (soft_knee_db : option number)
    (tf_points : list (number * number))
| Contrast (amount : number)
| Dcshift (shift : number)
| Deemph
| Delay (positions : list number)
| Downsample (factor : Z)
| Earwax
| Equalizer (frequency width_q gain_db : number)
| Fade (fade_in_len fade_out_len : number) (fade_shape : string)
| Gain (gain_db : number) (normalize limiter : bool) (balance : option string)
| Highpass (frequency width_q : number) (n_poles : Z)
| Lowpass (frequency width_q : number) (n_poles : Z)
| Loudness (gain_db reference_level : number)
| Norm (db_level : number)
| Overdrive (gain_db colour : number)
| Pad (start_duration end_duration : number)
| Pitch (n_semitones : number) (quick : bool)
| Rate (samplerate : number) (quality : string)
| Reverb (reverberance high_freq_damping room_scale stereo_depth
    pre_delay wet_gain : number) (wet_only : bool)
| Reverse
| Silence (location : Z) (silence_threshold min_silence_duration : number)
    (buffer_around_silence : bool)
| Swap
| Tempo (factor : number) (audio_type : option string) (quick : bool)
| Treble (gain_db frequency slope : number)
| Tremolo (speed depth : number)
| Trim (start_time end_time : number)
| Upsample (factor : Z)
| Vad (location : Z) (normalize : bool)
    (activity_threshold min_activity_duration initial_search_buffer
     max_gap initial_pad : number)
| Unimplemented (m : stub).

Definition run_stub (m : stub) : M unit :=
  match m with
  | Bend => bend | Echo => echo | Echos => echos | Fir => fir
  | Flanger => flanger | Hilbert => hilbert | Mcompand => mcompand
  | Noisered => noisered | Oops => oops | Phaser => phaser
  | Remix => remix | Repeat => repeat | Sinc => sinc | Speed => speed
  | Splice => splice | Stretch => stretch
  end.

Definition run (c : call) : M unit :=
  match c with
  | Set_globals d g m r v => set_globals d g m r v
  | Set_input_format t r b c e i => set_input_format t r b c e i
  | Set_output_format t r b c e m a => set_output_format t r b c e m a
  | Convert s n b => convert s n b
  | Allpass f w => allpass f w
  | Bandpass f w c => bandpass f w c
  | Bandreject f w => bandreject f w
  | Bass g f s => bass g f s
  | Biquad b a => biquad b a
  | Channels n => channels n
  | Chorus gi go n dl dc sp dp sh => chorus gi go n dl dc sp dp sh
  | Compand a d k t => compand a d k t
  | Contrast a => contrast a
  | Dcshift s => dcshift s
  | Deemph => deemph
  | Delay p => delay p
  | Downsample f => downsample f
  | Earwax => earwax
  | Equalizer f w g => equalizer f w g
  | Fade i o s => fade i o s
  | Gain g n l b => gain g n l b
  | Highpass f w n => highpass f w n
  | Lowpass f w n => lowpass f w n
  | Loudness g r => loudness g r
  | Norm d => norm d
  | Overdrive g c => overdrive g c
  | Pad s e => pad s e
  | Pitch n q => pitch n q
  | Rate s q => rate s q
  | Reverb r h s d p w o => reverb r h s d p w o
  | Reverse => reverse
  | Silence l t d b => silence l t d b
  | Swap => swap
  | Tempo f a q => tempo f a q
  | Treble g f s => treble g f s
  | Tremolo s d => tremolo s d
  | Trim s e => trim s e
  | Upsample f => upsample f
  | Vad l n a m s g p => vad l n a m s g p
  | Unimplemented m => run_stub m
  end.

(** The world after a sequence of calls, each on the Transformer the
    previous one left. *)
Fixpoint run_all (cs : list call) (w : World) : World :=
  match cs with
  | [] => w
  | c :: cs' => run_all cs' (snd (run c w))
  end.

(** A world in which [Transformer()] has just been constructed. *)
Definition fresh : World :=
  snd (init (mkWorld (mkTransformer [] [] [] [] []) [] [] 0)).

End Transformer.

(** ** Vocabulary of the specification *)

(** The Transformer a successful effect call leaves: [toks] appended to
    the effects, [name] to the log, nothing else touched. *)
Definition committed (t : Transformer) (toks : list string) (name : string)
  : Transformer :=
  mkTransformer (globals t) (input_format t) (output_format t)
    (effects t ++ toks) (effects_log t ++ [name]).

(** The world [w] around another Transformer. *)
Definition with_self (w : World) (t : Transformer) : World :=
  mkWorld t (logged w) (invoked w) (drawn w).

(** Whether a call returns rather than raises. *)
Definition returns (env : Collaborators) (c : call) (w : World) : bool :=
  match fst (run env c w) with
  | Returns _ => true
  | Raises _ => false
  end.

(** The effect-method invocations that a call makes and that return: the
    call itself for an effect method, the [rate] invocation inside
    [convert] when a sample rate is given, none for a setter. *)
Definition effect_invocations (env : Collaborators) (c : call) (w : World)
  : nat :=
  match c with
  | Set_globals _ _ _ _ _
  | Set_input_format _ _ _ _ _ _
  | Set_output_format _ _ _ _ _ _ _ => 0
  | Convert None _ _ => 0
  | _ => if returns env c w then 1 else 0
  end.

(** A [fade] whose two lengths are both not positive has nothing to
    emit. *)
Definition empty_fade (c : call) : bool :=
  match c with
  | Fade fade_in_len fade_out_len _ =>
      negb (fade_in_len >? PInt 0)%py && negb (fade_out_len >? PInt 0)%py
  | _ => false
  end.

(** The invocations among them that emit at least one token. *)
Definition emitting_invocations (env : Collaborators) (c : call) (w : World)
  : nat :=
  if empty_fade c then 0 else effect_invocations env c w.

(** Sums a per-call count along a sequence of calls. *)
Fixpoint total (env : Collaborators) (f : call -> World -> nat)
    (cs : list call) (w : World) : nat :=
  match cs with
  | [] => 0
  | c :: cs' => (f c w + total env f cs' (snd (run env c w)))%nat
  end.

(** The characters a rendered number is made of. *)
Definition numeric_char (c : ascii) : bool :=
  existsb (Ascii.eqb c) (list_ascii_of_string "0123456789+-.aefin").

(** A text made of such characters only. *)
Definition numeric (l : list ascii) : Prop :=
  Forall (fun c => numeric_char c = true) l.

(** How many times a token occurs in a sequence. *)
Definition occurrences (token : string) (toks : list string) : nat :=
  List.length (filter (String.eqb token) toks).

(** The tokens of one [vad] invocation proper. *)
Definition vad_group (activity_threshold min_activity_duration
    initial_search_buffer max_gap initial_pad : number) : list string :=
  ["vad";
   "-t"; format activity_threshold;
   "-T"; format min_activity_duration;
   "-s"; format initial_search_buffer;
   "-g"; format max_gap;
   "-p"; format initial_pad].

(** The parameters of one end of [silence]: which end, the minimum
    duration, the threshold as a percentage. *)
Definition silence_group (which : string)
    (silence_threshold min_silence_duration : number) : list string :=
  [which; format min_silence_duration;
   (format silence_threshold ++ "%")%string].

(** An insertion sort by input level, for the worked examples: it
    compares with [<] as [sorted] does and keeps the promise of
    [sorts_by_x].  Where a level is not ordered it keeps the supplied
    order of the points it cannot tell apart, which need not be the
    arrangement of an interpreter. *)
Fixpoint insert_by_x (p : number * number) (points : list (number * number))
  : list (number * number) :=
  match points with
  | [] => [p]
  | q :: rest =>
      if (fst q <? fst p)%py then q :: insert_by_x p rest
      else p :: q :: rest
  end.

Fixpoint insertion_sort (points : list (number * number))
  : list (number * number) :=
  match points with
  | [] => []
  | p :: rest => insert_by_x p (insertion_sort rest)
  end.

(** Collaborators for the worked examples: every path is accepted, the
    engine and the player succeed, [random] returns the lower bound and
    the first choice, and the points are sorted by insertion. *)
Definition obliging : Collaborators :=
  {| VALID_FORMATS := ["wav"; "mp3"; "flac"];
     validate_input_file := fun _ => None;
     validate_output_file := fun _ => None;
     sox := fun _ => (0, None, None);
     play := fun _ => None;
     random_uniform := fun _ a _ =>
       match Num.to_float a with Some f => f | None => 0%float end;
     random_choice := fun _ l => hd "" l;
     sorted := insertion_sort |}.

(** Collaborators for which no input file is readable. *)
Definition unreadable : Collaborators :=
  {| VALID_FORMATS := VALID_FORMATS obliging;
     validate_input_file := fun path =>
       Some (IOError ("input_filepath " ++ path ++ " does not exist."));
     validate_output_file := validate_output_file obliging;
     sox := sox obliging;
     play := play obliging;
     random_uniform := random_uniform obliging;
     random_choice := random_choice obliging;
     sorted := sorted obliging |}.

(** A computation that leaves the Transformer alone. *)
Definition pure {A} (c : M A) : Prop :=
  forall w, self (snd (c w)) = self w.

(** The discipline of an effect method: it raises and leaves the
    Transformer alone, or it returns and has committed some tokens under
    its name. *)
Definition effect_like (name : string) (c : M unit) : Prop :=
  forall w,
    match c w with
    | (Returns _, w') => exists toks, self w' = committed (self w) toks name
    | (Raises _, w') => self w' = self w
    end.

(** Ascending order of transfer-function points, by input level. *)
Definition x_lt (p q : number * number) : Prop := (fst p <? fst q)%py = true.

(** The input level of a point, as an exact value. *)
Definition x_value (p : number * number) : Num.xreal := Num.exact (fst p).

(** A point whose two levels are numbers. *)
Definition numbers (p : number * number) : Prop :=
  is_number (fst p) = true /\ is_number (snd p) = true.

(** A point that passes the check of the levels: neither is above
    0 dB. *)
Definition not_above_zero (p : number * number) : Prop :=
  (fst p >? PInt 0)%py = false /\ (snd p >? PInt 0)%py = false.

(** A point whose input level is ordered: not a NaN. *)
Definition ordered (p : number * number) : Prop := x_value p <> Num.XNaN.

(** [q] may follow [p] in a sorted list: its input level is not below
    the one of [p]. *)
Definition x_le (p q : number * number) : Prop := (fst q <? fst p)%py = false.

(** What the language promises of sorting by input level: the result
    holds the points supplied, each as often as it was supplied, and when
    all the levels are ordered, no point comes after one of a greater
    level. *)
Definition sorts_by_x
    (sort : list (number * number) -> list (number * number)) : Prop :=
  forall points,
    Permutation points (sort points)
    /\ (Forall ordered points -> StronglySorted x_le (sort points)).

(** ** Vocabulary for the rest of the class *)

(** A computation that leaves one part of the world alone. *)
Definition keeps {A B} (part : World -> B) (c : M A) : Prop :=
  forall w, part (snd (c w)) = part w.

(** An effect method that never commits an empty group: it raises and
    leaves the Transformer alone, or it returns having appended at least
    one token and its name. *)
Definition emits (name : string) (c : M unit) : Prop :=
  forall w,
    match c w with
    | (Returns _, w') =>
        exists tok toks, self w' = committed (self w) (tok :: toks) name
    | (Raises _, w') => self w' = self w
    end.

(** The name a call writes to the effects log when it writes one:
    [convert] logs through [rate]; a setter and an unimplemented method
    log nothing. *)
Definition name_of (c : call) : string :=
  match c with
  | Set_globals _ _ _ _ _ | Set_input_format _ _ _ _ _ _
  | Set_output_format _ _ _ _ _ _ _ | Unimplemented _ => ""
  | Convert _ _ _ | Rate _ _ => "rate"
  | Allpass _ _ => "allpass"
  | Bandpass _ _ _ => "bandpass"
  | Bandreject _ _ => "bandreject"
  | Bass _ _ _ => "bass"
  | Biquad _ _ => "biquad"
  | Channels _ => "channels"
  | Chorus _ _ _ _ _ _ _ _ => "chorus"
  | Compand _ _ _ _ => "compand"
  | Contrast _ => "contrast"
  | Dcshift _ => "dcshift"
  | Deemph => "deemph"
  | Delay _ => "delay"
  | Downsample _ => "downsample"
  | Earwax => "earwax"
  | Equalizer _ _ _ => "equalizer"
  | Fade _ _ _ => "fade"
  | Gain _ _ _ _ => "gain"
  | Highpass _ _ _ => "highpass"
  | Lowpass _ _ _ => "lowpass"
  | Loudness _ _ => "loudness"
  | Norm _ => "norm"
  | Overdrive _ _ => "overdrive"
  | Pad _ _ => "pad"
  | Pitch _ _ => "pitch"
  | Reverb _ _ _ _ _ _ _ => "reverb"
  | Reverse => "reverse"
  | Silence _ _ _ _ => "silence"
  | Swap => "swap"
  | Tempo _ _ _ => "tempo"
  | Treble _ _ _ => "treble"
  | Tremolo _ _ => "tremolo"
  | Trim _ _ => "trim"
  | Upsample _ => "upsample"
  | Vad _ _ _ _ _ _ _ => "vad"
  end.

(** The entries a sequence of calls writes to the effects log: the name
    of each call that makes an emitting invocation, in call order. *)
Fixpoint log_entries (env : Collaborators) (cs : list call) (w : World)
  : list string :=
  match cs with
  | [] => []
  | c :: cs' =>
      (if Nat.eqb (emitting_invocations env c w) 0 then [] else [name_of c])
      ++ log_entries env cs' (snd (run env c w))
  end.

(** The calls that write the Transformer's option lists. *)
Definition sets_globals (c : call) : bool :=
  match c with Set_globals _ _ _ _ _ => true | _ => false end.

Definition sets_input_format (c : call) : bool :=
  match c with Set_input_format _ _ _ _ _ _ => true | _ => false end.

Definition sets_output_format (c : call) : bool :=
  match c with
  | Set_output_format _ _ _ _ _ _ _ | Convert _ _ _ => true
  | _ => false
  end.

(** The calls that can extend the effects and their log: every call but
    the three setters. *)
Definition is_setter (c : call) : bool :=
  match c with
  | Set_globals _ _ _ _ _ | Set_input_format _ _ _ _ _ _
  | Set_output_format _ _ _ _ _ _ _ => true
  | _ => false
  end.

(** A token list made of [flag, value] pairs with known flags. *)
Fixpoint paired (flags : list string) (toks : list string) : bool :=
  match toks with
  | [] => true
  | flag :: _ :: rest => in_list flag flags && paired flags rest
  | [_] => false
  end.

Definition input_flags : list string := ["-t"; "-r"; "-b"; "-c"; "-e"].

Definition output_flags : list string :=
  ["-t"; "-r"; "-b"; "-c"; "-e"; "--add-comment"; "--comment"].

(** One of the per-voice arguments of [chorus] as its checks accept it:
    omitted, or [n_voices] long with no element out of range. *)
Definition voices_accepted {A} (n_voices : Z) (bad : A -> bool)
    (given : option (list A)) : bool :=
  match given with
  | None => true
  | Some xs =>
      (Z.of_nat (List.length xs) =? n_voices) && negb (existsb bad xs)
  end.

(** How many values [chorus] draws for one per-voice argument. *)
Definition draws_for {A} (n_voices : Z) (given : option (list A)) : nat :=
  match given with
  | None => Z.to_nat n_voices
  | Some _ => 0
  end.

(** The values [chorus] uses for one per-voice argument: the list
    given, or [n_voices] draws starting at the draw [first]. *)
Definition chosen {A} (n_voices : Z) (given : option (list A))
    (random : nat -> A) (first : nat) : list A :=
  match given with
  | Some xs => xs
  | None => map random (seq first (Z.to_nat n_voices))
  end.

(** The five tokens of one voice of [chorus]. *)
Definition voice (delays decays speeds depths : list number)
    (shapes : list string) (i : nat) : list string :=
  [format (nth i delays (PInt 0)); format (nth i decays (PInt 0));
   format (nth i speeds (PInt 0)); format (nth i depths (PInt 0));
   ("-" ++ nth i shapes "")%string].

(** Collaborators for which no output path is writable. *)
Definition unwritable : Collaborators :=
  {| VALID_FORMATS := VALID_FORMATS obliging;
     validate_input_file := validate_input_file obliging;
     validate_output_file := fun path =>
       Some (IOError ("output_filepath " ++ path ++ " is not writeable."));
     sox := sox obliging;
     play := play obliging;
     random_uniform := random_uniform obliging;
     random_choice := random_choice obliging;
     sorted := sorted obliging |}.

(** Collaborators whose engine fails on every command. *)
Definition failing : Collaborators :=
  {| VALID_FORMATS := VALID_FORMATS obliging;
     validate_input_file := validate_input_file obliging;
     validate_output_file := validate_output_file obliging;
     sox := fun _ => (2, None, Some "sox FAIL formats: no handler");
     play := play obliging;
     random_uniform := random_uniform obliging;
     random_choice := random_choice obliging;
     sorted := sorted obliging |}.

(** Collaborators whose engine succeeds and reports on its output. *)
Definition talkative : Collaborators :=
  {| VALID_FORMATS := VALID_FORMATS obliging;
     validate_input_file := validate_input_file obliging;
     validate_output_file := validate_output_file obliging;
     sox := fun _ => (0, Some "done", None);
     play := play obliging;
     random_uniform := random_uniform obliging;
     random_choice := random_choice obliging;
     sorted := sorted obliging |}.

(** * Computations that leave the Transformer alone *)

Lemma pure_ret {A} (a : A) : pure (ret a).
Proof. intro w. reflexivity. Qed.

Lemma pure_raise {A} (e : exn) : pure (@raise A e).
Proof. intro w. reflexivity. Qed.

Lemma pure_raise_if (cond : bool) (e : exn) : pure (raise_if cond e).
Proof. intro w. unfold raise_if. destruct cond; reflexivity. Qed.

Lemma pure_logging (l : level) (msg : string) : pure (logging l msg).
Proof. intro w. reflexivity. Qed.

Lemma pure_invoke (i : invocation) : pure (invoke i).
Proof. intro w. reflexivity. Qed.

Lemma pure_draw : pure draw.
Proof. intro w. reflexivity. Qed.

Lemma pure_get_self : pure get_self.
Proof. intro w. reflexivity. Qed.

Lemma pure_bind {A B} (c : M A) (k : A -> M B) :
  pure c -> (forall a, pure (k a)) -> pure (bind c k).
Proof.
  intros Hc Hk w. unfold bind.
  specialize (Hc w). destruct (c w) as [[a | e] w']; simpl in *.
  - rewrite Hk. exact Hc.
  - exact Hc.
Qed.

Lemma pure_item {A} (xs : list A) (i : nat) : pure (item xs i).
Proof. intro w. unfold item. destruct (nth_error xs i); reflexivity. Qed.

Lemma pure_arithmetic (r : option number) : pure (arithmetic r).
Proof. intro w. destruct r; reflexivity. Qed.

Lemma pure_if {A} (b : bool) (c d : M A) :
  pure c -> pure d -> pure (if b then c else d).
Proof. destruct b; auto. Qed.

Lemma pure_for_each {A B} (body : A -> M B) (xs : list A) :
  (forall x, pure (body x)) -> pure (for_each body xs).
Proof.
  intro Hbody. induction xs as [| x xs IH]; simpl.
  - apply pure_ret.
  - apply pure_bind; [apply Hbody | intro b].
    apply pure_bind; [exact IH | intro bs]. apply pure_ret.
Qed.

Create HintDb pure.
#[local] Hint Resolve pure_ret pure_raise pure_raise_if pure_logging
  pure_invoke pure_draw pure_get_self pure_item pure_arithmetic : pure.

Ltac pure_tac :=
  repeat first
    [ apply pure_bind; [| intro]
    | apply pure_for_each; intro
    | apply pure_if
    | solve [auto with pure] ].

Lemma pure_voices {A} (n : Z) (given : option (list A)) (bad : A -> bool)
    (m1 m2 : string) (random : nat -> A) :
  pure (voices n given bad m1 m2 random).
Proof. unfold voices. destruct given; pure_tac. Qed.

Lemma pure_collaborate (i : invocation) (r : option exn) :
  pure (collaborate i r).
Proof. unfold collaborate. destruct r; pure_tac. Qed.

#[local] Hint Resolve pure_voices pure_collaborate : pure.

(** * The discipline of an effect method *)

Lemma effect_like_commit (name : string) (toks : list string) :
  effect_like name (extend_effects toks ;; append_effects_log name).
Proof. intro w. simpl. exists toks. reflexivity. Qed.

Lemma effect_like_raise (name : string) (e : exn) :
  effect_like name (raise e).
Proof. intro w. reflexivity. Qed.

Lemma effect_like_bind {A} (name : string) (c : M A) (k : A -> M unit) :
  pure c -> (forall a, effect_like name (k a)) ->
  effect_like name (bind c k).
Proof.
  intros Hc Hk w. unfold bind.
  specialize (Hc w). destruct (c w) as [[a | e] w']; simpl in *.
  - specialize (Hk a w'). destruct (k a w') as [[u | e] w''].
    + destruct Hk as [toks H]. exists toks. rewrite H, Hc. reflexivity.
    + rewrite Hk. exact Hc.
  - exact Hc.
Qed.

Ltac effect_tac :=
  cbv zeta;
  repeat first
    [ apply effect_like_commit
    | apply effect_like_raise
    | apply effect_like_bind; [solve [pure_tac] | intro] ].

Section Discipline.
Context (env : Collaborators).

Lemma run_effect_like (c : call) :
  match c with
  | Set_globals _ _ _ _ _ | Set_input_format _ _ _ _ _ _
  | Set_output_format _ _ _ _ _ _ _ | Convert _ _ _ | Fade _ _ _ => True
  | _ => exists name, effect_like name (run env c)
  end.
Proof.
  destruct c; try exact I; simpl.
  all: try (eexists;
            unfold allpass, bandpass, bandreject, bass, biquad, channels,
              chorus, compand, contrast, dcshift, deemph, delay, downsample,
              earwax, equalizer, gain, highpass, lowpass, loudness, norm,
              overdrive, pad, pitch, rate, reverb, reverse, silence, swap,
              tempo, treble, tremolo, trim, upsample, vad;
            effect_tac; fail).
  - exists "". destruct m; apply effect_like_raise.
Qed.
End Discipline.

(** * The order of Python numbers *)

Module NumFacts.

Lemma xcompare_opp (a b : Num.xreal) :
  Num.xcompare b a = option_map CompOpp (Num.xcompare a b).
Proof.
  destruct a, b; simpl; try reflexivity.
  rewrite Z.compare_antisym. reflexivity.
Qed.

Lemma xcompare_eq (a b : Num.xreal) :
  Num.xcompare a b = Some Eq -> a = b.
Proof.
  destruct a, b; simpl; try discriminate; try reflexivity.
  intro H. injection H as H. apply Z.compare_eq in H. congruence.
Qed.

Lemma xcompare_refl (a : Num.xreal) :
  a <> Num.XNaN -> Num.xcompare a a = Some Eq.
Proof.
  destruct a; simpl; try reflexivity; try congruence.
  intros _. rewrite Z.compare_refl. reflexivity.
Qed.

Lemma xcompare_lt_trans (a b c : Num.xreal) :
  Num.xcompare a b = Some Lt -> Num.xcompare b c = Some Lt ->
  Num.xcompare a c = Some Lt.
Proof.
  destruct a, b, c; simpl; intros H1 H2;
    try discriminate; try reflexivity.
  injection H1 as H1. injection H2 as H2.
  f_equal. apply Z.compare_lt_iff.
  pose proof (proj1 (Z.compare_lt_iff _ _) H1).
  pose proof (proj1 (Z.compare_lt_iff _ _) H2). lia.
Qed.

Lemma xcompare_total (a b : Num.xreal) :
  a <> Num.XNaN -> b <> Num.XNaN -> Num.xcompare a b <> None.
Proof. destruct a, b; simpl; congruence. Qed.

Lemma xcompare_some (a b : Num.xreal) (c : comparison) :
  Num.xcompare a b = Some c -> a <> Num.XNaN /\ b <> Num.XNaN.
Proof. destruct a, b; simpl; try discriminate; split; congruence. Qed.

(** Unfolds the comparisons of numbers down to [xcompare]. *)
Ltac to_compare :=
  unfold Num.gtb, Num.geb, Num.ltb, Num.leb, Num.eqb, Num.compare in *.

Lemma ltb_asym (a b : number) :
  (a <? b)%py = true -> (b <? a)%py = false.
Proof.
  to_compare. rewrite (xcompare_opp (Num.exact a) (Num.exact b)).
  destruct (Num.xcompare (Num.exact a) (Num.exact b)) as [[]|];
    simpl; congruence.
Qed.

Lemma ltb_not_geb (a b : number) :
  (a <? b)%py = true -> (a >=? b)%py = false.
Proof.
  to_compare. rewrite (xcompare_opp (Num.exact a) (Num.exact b)).
  destruct (Num.xcompare (Num.exact a) (Num.exact b)) as [[]|];
    simpl; congruence.
Qed.

Lemma leb_not_gtb (a b : number) :
  (a <=? b)%py = true -> (a >? b)%py = false.
Proof.
  to_compare. rewrite (xcompare_opp (Num.exact a) (Num.exact b)).
  destruct (Num.xcompare (Num.exact a) (Num.exact b)) as [[]|];
    simpl; congruence.
Qed.

Lemma eqb_not_ltb (a b : number) :
  (a =? b)%py = true -> (a <? b)%py = false /\ (a >? b)%py = false.
Proof.
  to_compare. rewrite (xcompare_opp (Num.exact a) (Num.exact b)).
  destruct (Num.xcompare (Num.exact a) (Num.exact b)) as [[]|];
    simpl; try discriminate; auto.
Qed.

Lemma leb_ltb_trans (a b c : number) :
  (a <=? b)%py = true -> (b <? c)%py = true -> (a <? c)%py = true.
Proof.
  to_compare. intros H1 H2.
  destruct (Num.xcompare (Num.exact a) (Num.exact b)) as [[]|] eqn:E1;
    try discriminate;
  destruct (Num.xcompare (Num.exact b) (Num.exact c)) as [[]|] eqn:E2;
    try discriminate.
  - apply xcompare_eq in E1. rewrite E1, E2. reflexivity.
  - rewrite (xcompare_lt_trans _ _ _ E1 E2). reflexivity.
Qed.

Lemma ltb_trans (a b c : number) :
  (a <? b)%py = true -> (b <? c)%py = true -> (a <? c)%py = true.
Proof.
  intros H1 H2. apply leb_ltb_trans with b; [| exact H2].
  revert H1. to_compare.
  destruct (Num.xcompare (Num.exact a) (Num.exact b)) as [[]|]; congruence.
Qed.

(** A number that is not a NaN. *)
Lemma leb_ordered (a b : number) :
  (a <=? b)%py = true -> Num.exact a <> Num.XNaN.
Proof.
  to_compare.
  destruct (Num.xcompare (Num.exact a) (Num.exact b)) eqn:E;
    [| discriminate].
  intros _. exact (proj1 (xcompare_some _ _ _ E)).
Qed.

Lemma eqb_exact (a b : number) :
  (a =? b)%py = true -> Num.exact a = Num.exact b.
Proof.
  to_compare.
  destruct (Num.xcompare (Num.exact a) (Num.exact b)) as [[]|] eqn:E;
    try discriminate.
  intros _. exact (xcompare_eq _ _ E).
Qed.

Lemma ltb_total (a b : number) :
  Num.exact a <> Num.XNaN -> Num.exact b <> Num.XNaN ->
  Num.exact a <> Num.exact b ->
  (a <? b)%py = false -> (b <? a)%py = true.
Proof.
  intros Ha Hb Hab. to_compare.
  rewrite (xcompare_opp (Num.exact a) (Num.exact b)).
  pose proof (xcompare_total _ _ Ha Hb) as Ht.
  destruct (Num.xcompare (Num.exact a) (Num.exact b)) as [[]|] eqn:E;
    simpl; try congruence.
  apply xcompare_eq in E. contradiction.
Qed.

(** Among numbers that are not NaN, "not below" is transitive. *)
Lemma geb_trans (a b c : number) :
  Num.exact a <> Num.XNaN -> Num.exact b <> Num.XNaN ->
  Num.exact c <> Num.XNaN ->
  (b <? a)%py = false -> (c <? b)%py = false -> (c <? a)%py = false.
Proof.
  to_compare.
  destruct (Num.exact a) as [| | i |], (Num.exact b) as [| | j |],
    (Num.exact c) as [| | k |]; simpl; intros; try congruence.
  destruct (Z.compare_spec j i), (Z.compare_spec k j),
    (Z.compare_spec k i); try congruence; lia.
Qed.

(** Arithmetic on numbers is defined. *)
Lemma arith_defined (fz : Z -> Z -> Z) (ff : float -> float -> float)
    (a b : number) :
  is_number a = true -> is_number b = true ->
  exists r, Num.arith fz ff a b = Some r.
Proof.
  unfold is_number, Num.arith. intros Ha Hb.
  destruct (Num.to_float a) as [x |] eqn:Ea; [| discriminate].
  destruct (Num.to_float b) as [y |] eqn:Eb; [| discriminate].
  destruct a, b; eauto.
Qed.

End NumFacts.

(** * The characters of a rendered number *)

Module ReprFacts.

Lemma numeric_app (l1 l2 : list ascii) :
  numeric l1 -> numeric l2 -> numeric (l1 ++ l2).
Proof. intros H1 H2. apply Forall_app. auto. Qed.

Lemma numeric_cons (c : ascii) (l : list ascii) :
  numeric_char c = true -> numeric l -> numeric (c :: l).
Proof. intros. constructor; assumption. Qed.

Lemma numeric_firstn (n : nat) (l : list ascii) :
  numeric l -> numeric (firstn n l).
Proof.
  unfold numeric. intro H. revert n.
  induction H; intros [| n]; simpl; constructor; auto.
Qed.

Lemma numeric_skipn (n : nat) (l : list ascii) :
  numeric l -> numeric (skipn n l).
Proof.
  unfold numeric. intro H. revert n.
  induction H; intros [| n]; simpl; auto.
Qed.

Lemma numeric_zeros (n : Z) : numeric (Repr.zeros n).
Proof.
  unfold Repr.zeros. induction (Z.to_nat n); simpl; constructor; auto.
Qed.

Lemma numeric_uint (d : Decimal.uint) :
  numeric (list_ascii_of_string (NilZero.string_of_uint d)).
Proof.
  assert (H : numeric (list_ascii_of_string (NilEmpty.string_of_uint d))).
  { induction d; simpl; constructor; auto. }
  destruct d; try exact H. repeat constructor.
Qed.

Lemma numeric_int (z : Z) : numeric (list_ascii_of_string (Repr.int z)).
Proof.
  unfold Repr.int, NilZero.string_of_int.
  destruct (Z.to_int z); simpl.
  - apply numeric_uint.
  - constructor; [reflexivity | apply numeric_uint].
Qed.

Lemma numeric_digits (m : positive) (e : Z) :
  numeric (fst (Repr.digits m e)).
Proof.
  unfold Repr.digits.
  destruct (Repr.shortest _ _ _ _ _ _ _) as [q k].
  destruct (Repr.strip _ _ _) as [q' k']. simpl.
  apply numeric_uint.
Qed.

Lemma numeric_exponent (x : Z) : numeric (Repr.exponent x).
Proof.
  unfold Repr.exponent. repeat apply numeric_app.
  - destruct (x <? 0); repeat constructor.
  - destruct (Z.abs x <? 10); repeat constructor.
  - apply numeric_uint.
Qed.

Lemma numeric_finite (m : positive) (e : Z) : numeric (Repr.finite m e).
Proof.
  unfold Repr.finite. pose proof (numeric_digits m e) as H.
  destruct (Repr.digits m e) as [ds pt]. simpl in H.
  destruct ((pt <=? -4) || (16 <? pt)).
  - apply numeric_app; [apply numeric_firstn; exact H |].
    apply numeric_app.
    + destruct (1 <? _); [| constructor].
      apply numeric_cons; [reflexivity | apply numeric_skipn; exact H].
    + apply numeric_cons; [reflexivity | apply numeric_exponent].
  - destruct (pt <=? 0).
    + repeat (apply numeric_cons; [reflexivity |]).
      apply numeric_app; [apply numeric_zeros | exact H].
    + destruct (_ <=? pt).
      * apply numeric_app; [exact H |].
        apply numeric_app; [apply numeric_zeros | repeat constructor].
      * apply numeric_app; [apply numeric_firstn; exact H |].
        apply numeric_cons; [reflexivity | apply numeric_skipn; exact H].
Qed.

Lemma numeric_sign (s : bool) : numeric (Repr.sign s).
Proof. destruct s; repeat constructor. Qed.

Lemma numeric_float (f : float) :
  numeric (list_ascii_of_string (Repr.float f)).
Proof.
  unfold Repr.float. rewrite list_ascii_of_string_of_list_ascii.
  destruct (Prim2SF f).
  - apply numeric_app; [apply numeric_sign | repeat constructor].
  - apply numeric_app; [apply numeric_sign | repeat constructor].
  - repeat constructor.
  - apply numeric_app; [apply numeric_sign | apply numeric_finite].
Qed.

Lemma numeric_format (x : number) :
  numeric (list_ascii_of_string (format x)).
Proof. destruct x; [apply numeric_int | apply numeric_float]. Qed.

Lemma list_ascii_of_append (s t : string) :
  list_ascii_of_string (s ++ t)%string
  = list_ascii_of_string s ++ list_ascii_of_string t.
Proof. induction s; simpl; congruence. Qed.

(** A token with a character that no number and no unit suffix has is
    not a rendered number, with or without the suffix. *)
Lemma format_differs (x : number) (suffix token : string) (c : ascii) :
  In c (list_ascii_of_string token) ->
  numeric_char c = false ->
  ~ In c (list_ascii_of_string suffix) ->
  (format x ++ suffix)%string <> token.
Proof.
  intros Hin Hc Hs Heq. subst token.
  rewrite list_ascii_of_append in Hin. apply in_app_or in Hin.
  destruct Hin as [Hin | Hin]; [| contradiction].
  pose proof (numeric_format x) as Hn. unfold numeric in Hn.
  rewrite Forall_forall in Hn. specialize (Hn c Hin). congruence.
Qed.

Lemma format_not_token (x : number) (token : string) (c : ascii) :
  In c (list_ascii_of_string token) ->
  numeric_char c = false ->
  format x <> token.
Proof.
  intros Hin Hc Heq.
  apply (format_differs x "" token c Hin Hc); [intros [] |].
  rewrite <- Heq. clear. induction (format x); simpl; congruence.
Qed.

(** The rendering of some doubles: the fewest digits that read back
    as the same double and, of two such decimals equally near, the one
    whose last digit is even. *)
Example format_rounds_half_to_even :
  map (fun f => format (PFloat f))
    [0.1; 2.5; 1e16; 1e-5; 0.50002288818359375; 562949953421312.75]%float
  = ["0.1"; "2.5"; "1e+16"; "1e-05"; "0.5000228881835938";
     "562949953421312.8"].
Proof. vm_compute. reflexivity. Qed.

End ReprFacts.

(** * Assembling and handing over the command *)

Section Orchestration.
Context (env : Collaborators).

(** C1.  When both paths pass their validators, [build] hands the engine
    one command: the globals, the input format, the input path, the
    output format, the output path and the effects, in that order and
    with nothing else.  The Transformer is left as it was, and [build]
    returns [True] exactly when the engine's status is zero. *)
Theorem build_token_order (w : World)
    (input_filepath output_filepath : string) :
  validate_input_file env input_filepath = None ->
  validate_output_file env output_filepath = None ->
  let t := self w in
  let args :=
    globals t ++ input_format t ++ [input_filepath]
    ++ output_format t ++ [output_filepath] ++ effects t in
  let '(result, w') := build env input_filepath output_filepath w in
  invoked w' =
    invoked w ++ [Validate_input_file input_filepath;
                  Validate_output_file output_filepath; Sox args]
  /\ self w' = t
  /\ (result = Returns true <-> fst (fst (sox env args)) = 0).
Proof.
  intros Hin Hout. unfold build, bind, collaborate, invoke, get_self.
  simpl. rewrite Hin, Hout. simpl.
  destruct (sox env _) as [[status out] err]. simpl.
  destruct (Z.eqb_spec status 0) as [E | E]; simpl.
  - destruct out; simpl; repeat split; auto;
      repeat rewrite <- app_assoc; reflexivity.
  - repeat split; try (repeat rewrite <- app_assoc; reflexivity);
      intro H; [discriminate | contradiction].
Qed.

(** C10.  [preview] consults no validator: whatever the input path, the
    one call it makes is to the player, with [play], [--no-show-progress],
    the globals, the input format, the path and the effects, and it
    raises only what the player raises.  [build] asks the validator
    first: on a path the validator rejects it raises the validator's
    error and the engine is not called. *)
Theorem preview_skips_validation (w : World) (input_filepath : string) :
  let t := self w in
  let args :=
    ["play"; "--no-show-progress"] ++ globals t ++ input_format t
    ++ [input_filepath] ++ effects t in
  preview env input_filepath w =
    (match play env args with Some e => Raises e | None => Returns tt end,
     mkWorld t (logged w) (invoked w ++ [Play args]) (drawn w))
  /\ forall (e : exn) (output_filepath : string),
       validate_input_file env input_filepath = Some e ->
       build env input_filepath output_filepath w =
         (Raises e,
          mkWorld t (logged w)
            (invoked w ++ [Validate_input_file input_filepath]) (drawn w)).
Proof.
  split.
  - unfold preview, bind, get_self, collaborate, invoke. simpl.
    destruct (play env _); reflexivity.
  - intros e out He. unfold build, bind, collaborate, invoke. simpl.
    rewrite He. reflexivity.
Qed.

End Orchestration.

Lemma build_token_order_witness :
  invoked
    (snd (build obliging "in.raw" "out.wav"
            (run_all obliging
               [Set_input_format None (Some (PInt 8000)) None None None false;
                Set_output_format None None (Some 16) None None None true;
                Trim (PInt 2) (PInt 5)]
               fresh))) =
    [Validate_input_file "in.raw"; Validate_output_file "out.wav";
     Sox ["-D"; "-V2"; "-r"; "8000"; "in.raw"; "-b"; "16"; "out.wav";
          "trim"; "2"; "3"]].
Proof.
  pose proof (build_token_order obliging
                (run_all obliging
                   [Set_input_format None (Some (PInt 8000)) None None None
                      false;
                    Set_output_format None None (Some 16) None None None true;
                    Trim (PInt 2) (PInt 5)]
                   fresh)
                "in.raw" "out.wav" eq_refl eq_refl) as H.
  cbv zeta in H.
  destruct (build obliging "in.raw" "out.wav" _) as [result w'].
  destruct H as [H _]. exact H.
Defined.

Lemma preview_skips_validation_witness :
  fst (preview unreadable "missing.wav" fresh) = Returns tt
  /\ fst (build unreadable "missing.wav" "out.wav" fresh)
     = Raises (IOError "input_filepath missing.wav does not exist.").
Proof.
  destruct (preview_skips_validation unreadable fresh "missing.wav")
    as [Hp Hb].
  split.
  - rewrite Hp. reflexivity.
  - rewrite (Hb _ "out.wav" eq_refl). reflexivity.
Defined.

(** * Failed calls and the effects log *)

Lemma effect_like_failure (name : string) (c : M unit) (w : World) (e : exn) :
  effect_like name c -> fst (c w) = Raises e -> self (snd (c w)) = self w.
Proof.
  intros H He. specialize (H w).
  destruct (c w) as [[u | e'] w']; simpl in *; [discriminate | exact H].
Qed.

Lemma effect_like_log (name : string) (c : M unit) (w : World) :
  effect_like name c ->
  List.length (effects_log (self (snd (c w)))) =
    (List.length (effects_log (self w))
     + if match fst (c w) with Returns _ => true | Raises _ => false end
       then 1 else 0)%nat.
Proof.
  intro H. specialize (H w). destruct (c w) as [[u | e] w']; simpl in *.
  - destruct H as [toks H]. rewrite H. simpl. apply length_app.
  - rewrite H. lia.
Qed.

(** A setter checks, then assigns: it raises only while checking. *)
Lemma raises_in_checks {A} (check : M A) (k : A -> M unit) (w : World)
    (e : exn) :
  pure check ->
  (forall a w', fst (k a w') = Returns tt) ->
  fst (bind check k w) = Raises e ->
  self (snd (bind check k w)) = self w.
Proof.
  intros Hcheck Hk. unfold bind. specialize (Hcheck w).
  destruct (check w) as [[a | e'] w']; simpl in *.
  - rewrite Hk. discriminate.
  - intros _. exact Hcheck.
Qed.

Lemma pure_validate_format (env : Collaborators) (file_type : option string)
    (rate : option number) (bits channels : option Z)
    (encoding : option string) :
  pure (validate_format env file_type rate bits channels encoding).
Proof. unfold validate_format. pure_tac. Qed.

(** Splits the next test of a method body. *)
Ltac step :=
  match goal with
  | |- context [raise_if ?b _] => destruct b; simpl
  | |- context [if ?b then _ else _] => destruct b; simpl
  end.

Lemma fade_outcome (fade_in_len fade_out_len : number) (fade_shape : string)
    (w : World) :
  match fade fade_in_len fade_out_len fade_shape w with
  | (Returns _, w') =>
      if empty_fade (Fade fade_in_len fade_out_len fade_shape)
      then w' = w
      else exists toks, self w' = committed (self w) toks "fade"
  | (Raises _, w') => w' = w
  end.
Proof.
  unfold fade, bind, empty_fade. cbv zeta.
  destruct (fade_in_len >? PInt 0)%py, (fade_out_len >? PInt 0)%py; simpl;
    repeat (step; try reflexivity); eexists; reflexivity.
Qed.

Lemma convert_log (samplerate : option number) (n_channels bitdepth : option Z)
    (w : World) :
  match convert samplerate n_channels bitdepth w with
  | (Returns _, w') =>
      List.length (effects_log (self w')) =
        (List.length (effects_log (self w))
         + match samplerate with Some _ => 1 | None => 0 end)%nat
  | (Raises _, w') => effects_log (self w') = effects_log (self w)
  end.
Proof.
  unfold convert, rate, bind. cbv zeta.
  destruct bitdepth, n_channels, samplerate; simpl;
    repeat (step; try reflexivity);
    try (rewrite length_app; reflexivity); lia.
Qed.

Section Calls.
Context (env : Collaborators).

(** X8.  Every builder call but [convert] that raises, whatever the
    exception, leaves the Transformer as it found it: each method
    finishes its checks before it writes. *)
Lemma failed_call_keeps_transformer (c : call) (w : World) (e : exn) :
  match c with Convert _ _ _ => False | _ => True end ->
  fst (run env c w) = Raises e ->
  self (snd (run env c w)) = self w.
Proof.
  intros Hc He. pose proof (run_effect_like env c) as Hlike.
  destruct c; try contradiction;
    try match type of Hlike with
        | ex _ =>
            let name := fresh "name" in
            destruct Hlike as [name Hlike];
            exact (effect_like_failure name _ w e Hlike He)
        end;
    clear Hlike; simpl in *.
  - unfold set_globals in *.
    apply (raises_in_checks _ _ w e); [pure_tac | reflexivity | exact He].
  - unfold set_input_format in *.
    apply (raises_in_checks _ _ w e);
      [apply pure_validate_format | reflexivity | exact He].
  - unfold set_output_format in *.
    apply (raises_in_checks _ _ w e);
      [apply pure_validate_format | reflexivity | exact He].
  - pose proof (fade_outcome fade_in_len fade_out_len fade_shape w) as H.
    destruct (fade _ _ _ w) as [[u | e'] w']; [discriminate | ].
    simpl. congruence.
Qed.

(** A setter leaves the effects log alone. *)
Lemma checks_keep_log {A} (check : M A) (f : Transformer -> Transformer)
    (w : World) :
  pure check ->
  (forall t, effects_log (f t) = effects_log t) ->
  effects_log (self (snd (bind check (fun _ => modify_self f) w)))
  = effects_log (self w).
Proof.
  intros Hcheck Hf. unfold bind. specialize (Hcheck w).
  destruct (check w) as [[a | e] w']; simpl in *.
  - rewrite Hf. congruence.
  - congruence.
Qed.

Lemma log_after_run (c : call) (w : World) :
  List.length (effects_log (self (snd (run env c w)))) =
  (List.length (effects_log (self w)) + emitting_invocations env c w)%nat.
Proof.
  pose proof (run_effect_like env c) as Hlike.
  unfold emitting_invocations, effect_invocations, returns.
  destruct c;
    try match type of Hlike with
        | ex _ =>
            let name := fresh "name" in
            destruct Hlike as [name Hlike];
            exact (effect_like_log name _ w Hlike)
        end;
    clear Hlike; cbn [run].
  - unfold set_globals, assign_globals. cbv zeta.
    rewrite checks_keep_log; [simpl; lia | pure_tac | reflexivity].
  - unfold set_input_format, assign_input_format. cbv zeta.
    rewrite checks_keep_log;
      [simpl; lia | apply pure_validate_format | reflexivity].
  - unfold set_output_format, assign_output_format. cbv zeta.
    rewrite checks_keep_log;
      [simpl; lia | apply pure_validate_format | reflexivity].
  - pose proof (convert_log samplerate n_channels bitdepth w) as H.
    destruct (convert samplerate n_channels bitdepth w) as [[u | e] w'];
      destruct samplerate; simpl in *; rewrite H; lia.
  - pose proof (fade_outcome fade_in_len fade_out_len fade_shape w) as H.
    unfold empty_fade in *.
    destruct (fade fade_in_len fade_out_len fade_shape w) as [[u | e] w'];
      destruct (negb _ && negb _); simpl in *.
    + rewrite H. lia.
    + destruct H as [toks H]. rewrite H. simpl. apply length_app.
    + rewrite H. lia.
    + rewrite H. lia.
Qed.

Lemma log_after_run_all (cs : list call) (w : World) :
  List.length (effects_log (self (run_all env cs w))) =
  (List.length (effects_log (self w))
   + total env (emitting_invocations env) cs w)%nat.
Proof.
  revert w. induction cs as [| c cs IH]; intro w; simpl.
  - lia.
  - rewrite IH, log_after_run. lia.
Qed.

(** C3, as the code has it.  After any sequence of builder calls on a
    new Transformer, the length of the effects log is the number of
    effect-method invocations that returned and emitted at least one
    token: every returning invocation except a [fade] whose two lengths
    are both not positive, the [rate] invocation made by [convert]
    included, however many tokens each one appended. *)
Theorem effects_log_counts_emitting_invocations (cs : list call) :
  List.length (effects_log (self (run_all env cs fresh))) =
  total env (emitting_invocations env) cs fresh.
Proof. rewrite log_after_run_all. reflexivity. Qed.

End Calls.

(** C3, as stated, fails: [fade()] with its default lengths returns
    without raising and leaves the log empty, so one effect-method
    invocation has returned and the log has length zero. *)
Lemma effects_log_misses_empty_fade :
  List.length
    (effects_log
       (self (run_all obliging [Fade (PFloat 0) (PFloat 0) "q"] fresh)))
  <> total obliging (effect_invocations obliging)
       [Fade (PFloat 0) (PFloat 0) "q"] fresh.
Proof. vm_compute. discriminate. Qed.

(** C2, where the code departs from it.  [convert] writes the bit depth
    into the output format before it checks the channel count: with a
    valid bit depth and an invalid channel count the call raises a
    validation error and the output format has already grown. *)
Theorem convert_commits_before_failing :
  let outcome := convert None (Some 0) (Some 16) fresh in
  fst outcome = Raises (ValueError "n_channels must be a positive integer.")
  /\ output_format (self fresh) = []
  /\ output_format (self (snd outcome)) = ["-b"; "16"].
Proof. vm_compute. auto. Qed.


(** * Token layouts of single effects *)

(** C7.  For numbers [start_time] and [end_time]: with
    [0 <= start_time < end_time], [trim] returns and appends [trim], the
    start time and the duration [end_time - start_time]; with
    [start_time >= end_time] or a negative time it raises a validation
    error and changes nothing. *)
Theorem trim_emits_duration (w : World) (start_time end_time : number) :
  is_number start_time = true ->
  is_number end_time = true ->
  ((PInt 0 <=? start_time)%py = true ->
   (start_time <? end_time)%py = true ->
   exists duration,
     Num.sub end_time start_time = Some duration
     /\ trim start_time end_time w =
          (Returns tt,
           with_self w
             (committed (self w)
                ["trim"; format start_time; format duration] "trim")))
  /\ ((start_time >=? end_time)%py = true
      \/ (start_time <? PInt 0)%py = true
      \/ (end_time <? PInt 0)%py = true ->
      exists msg,
        trim start_time end_time w = (Raises (ValueError msg), w)).
Proof.
  intros Hs He. split.
  - intros H0 Hlt.
    destruct (NumFacts.arith_defined Z.sub PrimFloat.sub
                end_time start_time He Hs) as [duration Hd].
    exists duration. split; [exact Hd |].
    pose proof (NumFacts.leb_not_gtb _ _ H0) as Hs0.
    pose proof (NumFacts.ltb_asym _ _
                  (NumFacts.leb_ltb_trans _ _ _ H0 Hlt)) as He0.
    pose proof (NumFacts.ltb_not_geb _ _ Hlt) as Hge.
    unfold Num.gtb in Hs0.
    unfold trim, bind, Num.sub in *.
    rewrite Hs, He, Hs0, He0, Hge, Hd. reflexivity.
  - intro Hbad. unfold trim, bind. rewrite Hs, He. simpl.
    destruct (start_time <? PInt 0)%py eqn:E1; simpl;
      [eexists; reflexivity |].
    destruct (end_time <? PInt 0)%py eqn:E2; simpl;
      [eexists; reflexivity |].
    destruct (start_time >=? end_time)%py eqn:E3; simpl;
      [eexists; reflexivity |].
    destruct Hbad as [H | [H | H]]; congruence.
Qed.

Lemma trim_emits_duration_witness :
  effects (self (snd (trim (PFloat 2) (PFloat 5) fresh)))
  = ["trim"; "2.0"; "3.0"]
  /\ effects (self (snd (trim (PInt 0) (PFloat 0.50002288818359375) fresh)))
     = ["trim"; "0"; "0.5000228881835938"]
  /\ fst (trim (PInt 5) (PInt 5) fresh)
     = Raises (ValueError "start_time must be smaller than end_time.").
Proof.
  destruct (trim_emits_duration fresh (PFloat 2) (PFloat 5)
              eq_refl eq_refl) as [Hok _].
  destruct (trim_emits_duration fresh (PInt 0) (PFloat 0.50002288818359375)
              eq_refl eq_refl) as [Hlong _].
  destruct (trim_emits_duration fresh (PInt 5) (PInt 5)
              eq_refl eq_refl) as [_ Hbad].
  destruct (Hok eq_refl eq_refl) as [duration [Hd Ht]].
  destruct (Hlong eq_refl eq_refl) as [duration' [Hd' Ht']].
  destruct (Hbad (or_introl eq_refl)) as [msg Hm].
  split; [| split].
  - rewrite Ht. vm_compute in Hd. injection Hd as Hd. subst duration.
    reflexivity.
  - rewrite Ht'. vm_compute in Hd'. injection Hd' as Hd'. subst duration'.
    vm_compute. reflexivity.
  - reflexivity.
Defined.

(** C8.  For every number, [pitch] returns and appends [pitch], the
    flag [-q] when [quick] is set, and then the shift in hundredths of a
    semitone: the number as a float, times [100.].  A shift below -12 or
    above 12 adds one warning to the log and nothing else. *)
Theorem pitch_emits_cents (w : World) (n_semitones : number) (quick : bool) :
  is_number n_semitones = true ->
  exists semitones,
    Num.to_float n_semitones = Some semitones
    /\ pitch n_semitones quick w =
         (Returns tt,
          mkWorld
            (committed (self w)
               (["pitch"] ++ when quick ["-q"]
                ++ [format (PFloat (PrimFloat.mul semitones 100))])
               "pitch")
            (logged w
             ++ if (n_semitones <? PInt (-12))%py
                   || (n_semitones >? PInt 12)%py
                then [(WARNING,
                       "Using an extreme pitch shift. "
                       ++ "Quality of results will be poor")%string]
                else [])
            (invoked w) (drawn w)).
Proof.
  unfold is_number. intro Hn.
  destruct (Num.to_float n_semitones) as [semitones |] eqn:Ef;
    [| discriminate].
  exists semitones. split; [reflexivity |].
  assert (Hmul : Num.mul n_semitones (PFloat 100)
                 = Some (PFloat (PrimFloat.mul semitones 100))).
  { unfold Num.mul, Num.arith. rewrite Ef. destruct n_semitones; reflexivity. }
  unfold pitch, bind, is_number. rewrite Ef. simpl.
  destruct ((n_semitones <? PInt (-12))%py || (n_semitones >? PInt 12)%py);
    simpl; rewrite Hmul; simpl.
  - reflexivity.
  - rewrite app_nil_r. reflexivity.
Qed.

Lemma pitch_emits_cents_witness :
  effects (self (snd (pitch (PInt (-5)) false fresh))) = ["pitch"; "-500.0"]
  /\ effects (self (snd (pitch (PInt 24) true fresh)))
     = ["pitch"; "-q"; "2400.0"]
  /\ fst (pitch (PInt 24) true fresh) = Returns tt
  /\ effects (self (snd (pitch (PFloat 0x1.47ae147ae1483p+42) false fresh)))
     = ["pitch"; "562949953421312.8"].
Proof.
  destruct (pitch_emits_cents fresh (PInt (-5)) false eq_refl)
    as [x [Hx H5]].
  destruct (pitch_emits_cents fresh (PInt 24) true eq_refl)
    as [y [Hy H24]].
  destruct (pitch_emits_cents fresh (PFloat 0x1.47ae147ae1483p+42) false
              eq_refl) as [z [Hz Hlong]].
  vm_compute in Hx. injection Hx as Hx. subst x.
  vm_compute in Hy. injection Hy as Hy. subst y.
  vm_compute in Hz. injection Hz as Hz. subst z.
  rewrite H5, H24, Hlong. repeat split.
Defined.

(** C4.  With one of the five shapes and numeric lengths: a positive
    fade-in length alone appends [fade shape in_len]; a positive
    fade-out length alone appends [reverse fade shape out_len reverse];
    both positive append the first group and then the second; both zero
    append nothing and log nothing. *)
Theorem fade_token_layout (w : World) (fade_in_len fade_out_len : number)
    (fade_shape : string) :
  in_list fade_shape ["q"; "h"; "t"; "l"; "p"] = true ->
  is_number fade_in_len = true ->
  is_number fade_out_len = true ->
  let fade_in := ["fade"; fade_shape; format fade_in_len] in
  let fade_out :=
    ["reverse"; "fade"; fade_shape; format fade_out_len; "reverse"] in
  let appends toks :=
    fade fade_in_len fade_out_len fade_shape w =
      (Returns tt, with_self w (committed (self w) toks "fade")) in
  ((fade_in_len >? PInt 0)%py = true ->
   (fade_out_len =? PInt 0)%py = true -> appends fade_in)
  /\ ((fade_in_len =? PInt 0)%py = true ->
      (fade_out_len >? PInt 0)%py = true -> appends fade_out)
  /\ ((fade_in_len >? PInt 0)%py = true ->
      (fade_out_len >? PInt 0)%py = true -> appends (fade_in ++ fade_out))
  /\ ((fade_in_len =? PInt 0)%py = true ->
      (fade_out_len =? PInt 0)%py = true ->
      fade fade_in_len fade_out_len fade_shape w = (Returns tt, w)).
Proof.
  intros Hshape Hin Hout fade_in fade_out appends.
  assert (Hpos : forall x, (x >? PInt 0)%py = true -> (x <? PInt 0)%py = false).
  { intros x H. apply NumFacts.ltb_asym. exact H. }
  assert (Hzero : forall x, (x =? PInt 0)%py = true ->
            (x <? PInt 0)%py = false /\ (x >? PInt 0)%py = false).
  { intros x H. apply NumFacts.eqb_not_ltb. exact H. }
  unfold appends, fade_in, fade_out, fade, bind.
  rewrite Hshape, Hin, Hout. simpl.
  repeat split; intros H1 H2.
  - destruct (Hzero _ H2) as [H3 H4].
    rewrite (Hpos _ H1), H1, H3, H4. reflexivity.
  - destruct (Hzero _ H1) as [H3 H4].
    rewrite (Hpos _ H2), H2, H3, H4. reflexivity.
  - rewrite (Hpos _ H1), (Hpos _ H2), H1, H2. reflexivity.
  - destruct (Hzero _ H1) as [H3 H4]. destruct (Hzero _ H2) as [H5 H6].
    rewrite H3, H4, H5, H6. reflexivity.
Qed.

Lemma fade_token_layout_witness :
  effects (self (snd (fade (PFloat 2) (PFloat 0) "q" fresh)))
  = ["fade"; "q"; "2.0"]
  /\ effects (self (snd (fade (PFloat 0) (PFloat 3) "q" fresh)))
     = ["reverse"; "fade"; "q"; "3.0"; "reverse"]
  /\ effects (self (snd (fade (PFloat 2) (PFloat 3) "q" fresh)))
     = ["fade"; "q"; "2.0"; "reverse"; "fade"; "q"; "3.0"; "reverse"]
  /\ effects_log (self (snd (fade (PFloat 0) (PFloat 0) "q" fresh))) = [].
Proof.
  destruct (fade_token_layout fresh (PFloat 2) (PFloat 0) "q"
              eq_refl eq_refl eq_refl) as [H1 _].
  destruct (fade_token_layout fresh (PFloat 0) (PFloat 3) "q"
              eq_refl eq_refl eq_refl) as [_ [H2 _]].
  destruct (fade_token_layout fresh (PFloat 2) (PFloat 3) "q"
              eq_refl eq_refl eq_refl) as [_ [_ [H3 _]]].
  destruct (fade_token_layout fresh (PFloat 0) (PFloat 0) "q"
              eq_refl eq_refl eq_refl) as [_ [_ [_ H4]]].
  rewrite (H1 eq_refl eq_refl), (H2 eq_refl eq_refl),
    (H3 eq_refl eq_refl), (H4 eq_refl eq_refl).
  repeat split.
Defined.

Lemma format_eqb_token (x : number) (suffix token : string) (c : ascii) :
  In c (list_ascii_of_string token) ->
  numeric_char c = false ->
  ~ In c (list_ascii_of_string suffix) ->
  String.eqb token (format x ++ suffix) = false.
Proof.
  intros Hin Hc Hs. apply String.eqb_neq. intro H. symmetry in H.
  exact (ReprFacts.format_differs x suffix token c Hin Hc Hs H).
Qed.

Lemma vad_group_no_reverse (normalize : bool)
    (activity_threshold min_activity_duration initial_search_buffer
     max_gap initial_pad : number) :
  ~ In "reverse"
      (when normalize ["norm"]
       ++ vad_group activity_threshold min_activity_duration
            initial_search_buffer max_gap initial_pad).
Proof.
  assert (Hf : forall x, format x <> "reverse").
  { intro x. apply (ReprFacts.format_not_token x "reverse" "r"%char);
      [simpl; auto | reflexivity]. }
  intro H. apply in_app_or in H. destruct H as [H | H].
  - destruct normalize; simpl in H; [| contradiction].
    destruct H as [H | []]. discriminate.
  - unfold vad_group in H. simpl in H.
    repeat (destruct H as [H | H];
            [first [discriminate | exact (Hf _ H)] |]).
    contradiction.
Qed.

(** C5, as the code has it.  A valid [vad] call with [location = -1]
    appends the vad group — [vad] and its five flagged values — between
    a leading and a trailing [reverse]; the [norm] token of
    [normalize] comes first, outside and ahead of the leading [reverse].
    With [location = 1] the same tokens are appended without any
    [reverse]. *)
Theorem vad_reverse_wraps_vad_group (w : World) (location : Z)
    (normalize : bool)
    (activity_threshold min_activity_duration initial_search_buffer
     max_gap initial_pad : number) :
  is_number activity_threshold = true ->
  is_number min_activity_duration = true ->
  (min_activity_duration <? PInt 0)%py = false ->
  is_number initial_search_buffer = true ->
  (initial_search_buffer <? PInt 0)%py = false ->
  is_number max_gap = true ->
  (max_gap <? PInt 0)%py = false ->
  is_number initial_pad = true ->
  (initial_pad <? PInt 0)%py = false ->
  let group :=
    vad_group activity_threshold min_activity_duration
      initial_search_buffer max_gap initial_pad in
  let appends toks :=
    vad location normalize activity_threshold min_activity_duration
      initial_search_buffer max_gap initial_pad w =
      (Returns tt, with_self w (committed (self w) toks "vad")) in
  (location = -1 ->
   appends (when normalize ["norm"] ++ ["reverse"] ++ group ++ ["reverse"]))
  /\ (location = 1 -> appends (when normalize ["norm"] ++ group))
  /\ ~ In "reverse" (when normalize ["norm"] ++ group).
Proof.
  intros Ha Hm Hm0 Hs Hs0 Hg Hg0 Hp Hp0 group appends.
  unfold appends, group, vad, bind.
  rewrite Ha, Hm, Hm0, Hs, Hs0, Hg, Hg0, Hp, Hp0.
  split; [| split].
  - intros ->. reflexivity.
  - intros ->. reflexivity.
  - apply vad_group_no_reverse.
Qed.

Lemma vad_reverse_wraps_vad_group_witness :
  effects (self (snd (vad (-1) true (PFloat 7) (PFloat 0.25) (PFloat 1)
                        (PFloat 0.25) (PFloat 0) fresh)))
  = ["norm"; "reverse"; "vad"; "-t"; "7.0"; "-T"; "0.25"; "-s"; "1.0";
     "-g"; "0.25"; "-p"; "0.0"; "reverse"]
  /\ effects (self (snd (vad 1 true (PFloat 7) (PFloat 0.25) (PFloat 1)
                           (PFloat 0.25) (PFloat 0) fresh)))
     = ["norm"; "vad"; "-t"; "7.0"; "-T"; "0.25"; "-s"; "1.0";
        "-g"; "0.25"; "-p"; "0.0"].
Proof.
  destruct (vad_reverse_wraps_vad_group fresh (-1) true
              (PFloat 7) (PFloat 0.25) (PFloat 1) (PFloat 0.25) (PFloat 0)
              eq_refl eq_refl eq_refl eq_refl eq_refl eq_refl eq_refl
              eq_refl eq_refl) as [Hback _].
  destruct (vad_reverse_wraps_vad_group fresh 1 true
              (PFloat 7) (PFloat 0.25) (PFloat 1) (PFloat 0.25) (PFloat 0)
              eq_refl eq_refl eq_refl eq_refl eq_refl eq_refl eq_refl
              eq_refl eq_refl) as [_ [Hfront _]].
  rewrite (Hback eq_refl), (Hfront eq_refl). split; reflexivity.
Defined.

(** C5, as stated, fails: with [normalize] set, the tokens of a
    [location = -1] call begin with [norm], so they are not a sequence
    enclosed in a leading and a trailing [reverse]. *)
Lemma vad_norm_precedes_reverse :
  ~ exists inner,
      effects (self (snd (vad (-1) true (PFloat 7) (PFloat 0.25) (PFloat 1)
                            (PFloat 0.25) (PFloat 0) fresh)))
      = ["reverse"] ++ inner ++ ["reverse"].
Proof. intros [inner H]. vm_compute in H. discriminate. Qed.

Lemma occurrences_nil (token : string) : occurrences token [] = 0%nat.
Proof. reflexivity. Qed.

Lemma occurrences_cons (token a : string) (l : list string) :
  occurrences token (a :: l) =
  ((if String.eqb token a then 1 else 0) + occurrences token l)%nat.
Proof.
  unfold occurrences. simpl. destruct (String.eqb token a); reflexivity.
Qed.

(** C9.  A valid [silence] call with [buffer_around_silence] set appends
    [silence -l] and the leading group, then at [location = 0] the
    trailing group, the whole between two [reverse] at [location = -1].
    The flag [-l] occurs once, right after the one [silence] token; the
    trailing group has neither. *)
Theorem silence_buffer_flag_once (w : World) (location : Z)
    (silence_threshold min_silence_duration : number) :
  In location [-1; 0; 1] ->
  is_number silence_threshold = true ->
  (silence_threshold <? PInt 0)%py = false ->
  (silence_threshold >=? PInt 100)%py = false ->
  is_number min_silence_duration = true ->
  (min_silence_duration <=? PInt 0)%py = false ->
  let leading := silence_group "1" silence_threshold min_silence_duration in
  let trailing := silence_group "-1" silence_threshold min_silence_duration in
  let toks :=
    when (location =? -1) ["reverse"]
    ++ ["silence"; "-l"] ++ leading
    ++ when (location =? 0) trailing
    ++ when (location =? -1) ["reverse"] in
  silence location silence_threshold min_silence_duration true w =
    (Returns tt, with_self w (committed (self w) toks "silence"))
  /\ occurrences "-l" toks = 1%nat
  /\ occurrences "silence" toks = 1%nat
  /\ (exists i, nth_error toks i = Some "silence"
                /\ nth_error toks (S i) = Some "-l")
  /\ occurrences "-l" trailing = 0%nat
  /\ occurrences "silence" trailing = 0%nat.
Proof.
  intros Hloc Ht Ht0 Ht100 Hd Hd0 leading trailing toks.
  assert (Hl : forall x suffix,
             ~ In "l"%char (list_ascii_of_string suffix) ->
             String.eqb "-l" (format x ++ suffix) = false).
  { intros x suffix Hs.
    apply (format_eqb_token x suffix "-l" "l"%char);
      [simpl; auto | reflexivity | exact Hs]. }
  assert (Hs : forall x suffix,
             ~ In "l"%char (list_ascii_of_string suffix) ->
             String.eqb "silence" (format x ++ suffix) = false).
  { intros x suffix Hsuf.
    apply (format_eqb_token x suffix "silence" "l"%char);
      [simpl; auto | reflexivity | exact Hsuf]. }
  assert (Hpercent : ~ In "l"%char (list_ascii_of_string "%")).
  { simpl. intros [H | []]. discriminate. }
  assert (Hnone : ~ In "l"%char (list_ascii_of_string "")).
  { intros []. }
  assert (Hplain : forall x, (format x ++ "")%string = format x).
  { intro x. induction (format x); simpl; congruence. }
  pose proof (Hl min_silence_duration "" Hnone) as Hl1.
  pose proof (Hs min_silence_duration "" Hnone) as Hs1.
  pose proof (Hl silence_threshold "%" Hpercent) as Hl2.
  pose proof (Hs silence_threshold "%" Hpercent) as Hs2.
  rewrite Hplain in Hl1, Hs1.
  split.
  - unfold toks, leading, trailing, silence, bind.
    rewrite Ht, Ht0, Ht100, Hd, Hd0.
    destruct Hloc as [<- | [<- | [<- | []]]]; reflexivity.
  - unfold toks, leading, trailing, silence_group.
    destruct Hloc as [<- | [<- | [<- | []]]];
      cbn [Z.eqb Pos.eqb when app];
      rewrite !occurrences_cons, !occurrences_nil,
        ?Hl1, ?Hl2, ?Hs1, ?Hs2;
      repeat split;
      solve [reflexivity
            | exists 0%nat; split; reflexivity
            | exists 1%nat; split; reflexivity].
Qed.

Lemma silence_buffer_flag_once_witness :
  effects (self (snd (silence 0 (PFloat 0.1) (PFloat 0.1) true fresh)))
  = ["silence"; "-l"; "1"; "0.1"; "0.1%"; "-1"; "0.1"; "0.1%"]
  /\ effects (self (snd (silence (-1) (PFloat 0.1) (PFloat 0.1) true fresh)))
     = ["reverse"; "silence"; "-l"; "1"; "0.1"; "0.1%"; "reverse"].
Proof.
  destruct (silence_buffer_flag_once fresh 0 (PFloat 0.1) (PFloat 0.1)
              (or_intror (or_introl eq_refl))
              eq_refl eq_refl eq_refl eq_refl eq_refl) as [Hboth _].
  destruct (silence_buffer_flag_once fresh (-1) (PFloat 0.1) (PFloat 0.1)
              (or_introl eq_refl)
              eq_refl eq_refl eq_refl eq_refl eq_refl) as [Hend _].
  rewrite Hboth, Hend. split; reflexivity.
Defined.

(** * The transfer function of compand *)

Module CompandFacts.

(** ** Distinct input levels *)

Lemma set_length_le (xs : list number) :
  (List.length (set xs) <= List.length xs)%nat.
Proof.
  induction xs as [| x xs IH]; simpl; [lia |].
  destruct (existsb (Num.eqb x) xs); simpl; lia.
Qed.

Lemma set_duplicate (l1 l2 l3 : list number) (a b : number) :
  (a =? b)%py = true ->
  (List.length (set (l1 ++ a :: l2 ++ b :: l3))
   < List.length (l1 ++ a :: l2 ++ b :: l3))%nat.
Proof.
  intro Hab. induction l1 as [| x l1 IH]; simpl.
  - assert (Hex : existsb (Num.eqb a) (l2 ++ b :: l3) = true).
    { apply existsb_exists. exists b. split; [| exact Hab].
      apply in_or_app. right. left. reflexivity. }
    rewrite Hex. pose proof (set_length_le (l2 ++ b :: l3)). lia.
  - destruct (existsb (Num.eqb x) _); simpl; lia.
Qed.

Lemma set_distinct (xs : list number) :
  NoDup (map Num.exact xs) -> set xs = xs.
Proof.
  induction xs as [| x xs IH]; simpl; intro Hnd; [reflexivity |].
  inversion Hnd as [| ? ? Hnotin Hnd']; subst.
  destruct (existsb (Num.eqb x) xs) eqn:Hex.
  - apply existsb_exists in Hex. destruct Hex as [y [Hy Hxy]].
    exfalso. apply Hnotin. rewrite (NumFacts.eqb_exact _ _ Hxy).
    apply in_map. exact Hy.
  - rewrite IH; [reflexivity | exact Hnd'].
Qed.

(** ** Sorting by input level *)

Lemma insert_permutation (p : number * number) (l : list (number * number)) :
  Permutation (p :: l) (insert_by_x p l).
Proof.
  induction l as [| q l IH]; simpl; [reflexivity |].
  destruct (fst q <? fst p)%py.
  - rewrite perm_swap. apply perm_skip. exact IH.
  - reflexivity.
Qed.

Lemma insertion_permutation (pts : list (number * number)) :
  Permutation pts (insertion_sort pts).
Proof.
  induction pts as [| p pts IH]; simpl; [reflexivity |].
  rewrite <- insert_permutation. apply perm_skip. exact IH.
Qed.

Lemma x_lt_trans (p q r : number * number) : x_lt p q -> x_lt q r -> x_lt p r.
Proof. unfold x_lt. apply NumFacts.ltb_trans. Qed.

Lemma x_lt_asym (p q : number * number) : x_lt p q -> x_lt q p -> False.
Proof.
  unfold x_lt. intros H1 H2. rewrite (NumFacts.ltb_asym _ _ H1) in H2.
  discriminate.
Qed.

Lemma x_le_trans (p q r : number * number) :
  ordered p -> ordered q -> ordered r -> x_le p q -> x_le q r -> x_le p r.
Proof. unfold ordered, x_value, x_le. apply NumFacts.geb_trans. Qed.

Lemma insert_ascending (p : number * number) (l : list (number * number)) :
  ordered p -> Forall ordered l ->
  StronglySorted x_le l -> StronglySorted x_le (insert_by_x p l).
Proof.
  intros Hp Hord Hsorted.
  induction Hsorted as [| q l Hsorted IH Hq]; simpl.
  - constructor; constructor.
  - inversion Hord as [| ? ? Hqord Hord']; subst.
    destruct (fst q <? fst p)%py eqn:Hlt.
    + constructor; [apply IH; assumption |].
      apply (Permutation_Forall (insert_permutation p l)).
      constructor; [| exact Hq].
      unfold x_le. apply NumFacts.ltb_asym. exact Hlt.
    + constructor; [constructor; assumption |].
      constructor; [exact Hlt |].
      rewrite Forall_forall in *. intros r Hr.
      apply x_le_trans with q; auto.
Qed.

Lemma insertion_ascending (pts : list (number * number)) :
  Forall ordered pts -> StronglySorted x_le (insertion_sort pts).
Proof.
  induction pts as [| p pts IH]; simpl; intro Hord; [constructor |].
  inversion Hord as [| ? ? Hp Hord']; subst.
  apply insert_ascending; auto.
  apply (Permutation_Forall (insertion_permutation pts)). exact Hord'.
Qed.

(** The insertion sort keeps the promise of [sorted]. *)
Lemma insertion_sort_sorts : sorts_by_x insertion_sort.
Proof.
  intro pts. split; [apply insertion_permutation | apply insertion_ascending].
Qed.

(** Sorted points of distinct, ordered levels ascend strictly. *)
Lemma distinct_ascending (l : list (number * number)) :
  Forall ordered l -> NoDup (map x_value l) ->
  StronglySorted x_le l -> StronglySorted x_lt l.
Proof.
  intros Hord Hnd Hsorted.
  induction Hsorted as [| a l Hsorted IH Ha]; [constructor |].
  inversion Hord as [| ? ? Haord Hord']; subst.
  inversion Hnd as [| ? ? Hnotin Hnd']; subst.
  constructor; [apply IH; assumption |].
  rewrite Forall_forall in *. intros q Hq.
  apply NumFacts.ltb_total.
  - exact (Hord' q Hq).
  - exact Haord.
  - intro Heq. apply Hnotin. fold (x_value q) (x_value a) in Heq.
    rewrite <- Heq. exact (in_map x_value l q Hq).
  - exact (Ha q Hq).
Qed.

(** Two ascending arrangements of the same points are the same list. *)
Lemma ascending_unique (l1 l2 : list (number * number)) :
  StronglySorted x_lt l1 -> StronglySorted x_lt l2 ->
  Permutation l1 l2 -> l1 = l2.
Proof.
  intro H1. revert l2.
  induction H1 as [| a l1 H1 IH Ha]; intros l2 H2 Hperm.
  - apply Permutation_nil in Hperm. congruence.
  - destruct H2 as [| b l2 H2 Hb].
    + symmetry in Hperm. apply Permutation_nil in Hperm. discriminate.
    + assert (Hab : a = b).
      { assert (Hin1 : In a (b :: l2)).
        { apply (Permutation_in _ Hperm). left. reflexivity. }
        assert (Hin2 : In b (a :: l1)).
        { apply (Permutation_in _ (Permutation_sym Hperm)). left.
          reflexivity. }
        destruct Hin1 as [E | Hin1]; [congruence |].
        destruct Hin2 as [E | Hin2]; [congruence |].
        rewrite Forall_forall in Ha, Hb.
        exfalso. exact (x_lt_asym a b (Ha _ Hin2) (Hb _ Hin1)). }
      subst b. f_equal. apply IH; [exact H2 |].
      exact (Permutation_cons_inv Hperm).
Qed.

(** What follows of the promise for points of distinct, ordered
    levels. *)
Section Promise.

Variable sort : list (number * number) -> list (number * number).
Hypothesis promise : sorts_by_x sort.

Lemma sorted_permutation (pts : list (number * number)) :
  Permutation pts (sort pts).
Proof. exact (proj1 (promise pts)). Qed.

Lemma sorted_ascending (pts : list (number * number)) :
  Forall ordered pts -> NoDup (map x_value pts) ->
  StronglySorted x_lt (sort pts).
Proof.
  intros Hord Hnd. apply distinct_ascending.
  - exact (Permutation_Forall (sorted_permutation pts) Hord).
  - exact (Permutation_NoDup
             (Permutation_map x_value (sorted_permutation pts)) Hnd).
  - exact (proj2 (promise pts) Hord).
Qed.

Lemma sorted_any_order (pts pts' : list (number * number)) :
  Forall ordered pts -> NoDup (map x_value pts) ->
  Permutation pts pts' -> sort pts' = sort pts.
Proof.
  intros Hord Hnd Hperm. apply ascending_unique.
  - apply sorted_ascending.
    + exact (Permutation_Forall Hperm Hord).
    + exact (Permutation_NoDup (Permutation_map x_value Hperm) Hnd).
  - apply sorted_ascending; assumption.
  - rewrite <- (sorted_permutation pts'), <- (sorted_permutation pts).
    symmetry. exact Hperm.
Qed.

End Promise.

End CompandFacts.

(** Splits the next check of a method body; a check that fires raises
    its [ValueError] with the Transformer untouched. *)
Ltac fires E :=
  match goal with
  | |- context [raise_if ?b _] =>
      destruct b eqn:E; simpl;
      [eexists; eexists; split; reflexivity |]
  end.

Section Compand.

Context (env : Collaborators).

(** An accepted [compand] call returns, warns when the attack is longer
    than the decay, and appends the points as [sorted] arranges them. *)
Lemma compand_accepted (w : World) (attack_time decay_time : number)
    (soft_knee_db : option number) (tf_points : list (number * number)) :
  is_number attack_time = true ->
  (attack_time <=? PInt 0)%py = false ->
  is_number decay_time = true ->
  (decay_time <=? PInt 0)%py = false ->
  match soft_knee_db with
  | Some k => is_number k = true
  | None => True
  end ->
  tf_points <> [] ->
  Forall numbers tf_points ->
  Forall not_above_zero tf_points ->
  NoDup (map x_value tf_points) ->
  let joined :=
    String.concat ","
      (flat_map (fun p => [format (fst p); format (snd p)])
         (sorted env tf_points)) in
  compand env attack_time decay_time soft_knee_db tf_points w =
    (Returns tt,
     mkWorld
       (committed (self w)
          ["compand";
           (format attack_time ++ "," ++ format decay_time)%string;
           match soft_knee_db with
           | Some k => (format k ++ ":" ++ joined)%string
           | None => joined
           end]
          "compand")
       (logged w
        ++ if (attack_time >? decay_time)%py
           then [(WARNING,
                  ("attack_time is larger than decay_time." ++ newline
                   ++ "For most situations, attack_time should be shorter "
                   ++ "than decay time because the human ear is more "
                   ++ "sensitive to sudden loud music than sudden soft "
                   ++ "music.")%string)]
           else [])
       (invoked w) (drawn w)).
Proof.
  intros Ha Ha0 Hd Hd0 Hk Hne Hnum Hnp Hnd joined. unfold joined.
  assert (E3 : match soft_knee_db with
               | Some k => negb (is_number k)
               | None => false
               end = false).
  { destruct soft_knee_db; [rewrite Hk |]; reflexivity. }
  assert (E4 : Nat.eqb (List.length tf_points) 0 = false).
  { destruct tf_points; [contradiction | reflexivity]. }
  assert (E5 : existsb
                 (fun p => negb (is_number (fst p) && is_number (snd p)))
                 tf_points = false).
  { apply not_true_is_false. intro H. apply existsb_exists in H.
    destruct H as [p [Hin Hp]]. rewrite Forall_forall in Hnum.
    destruct (Hnum p Hin) as [H1 H2]. rewrite H1, H2 in Hp. discriminate. }
  assert (E6 : existsb
                 (fun p => (fst p >? PInt 0)%py || (snd p >? PInt 0)%py)
                 tf_points = false).
  { apply not_true_is_false. intro H. apply existsb_exists in H.
    destruct H as [p [Hin Hp]]. rewrite Forall_forall in Hnp.
    destruct (Hnp p Hin) as [H1 H2]. rewrite H1, H2 in Hp. discriminate. }
  assert (E7 : Nat.ltb (List.length (set (map fst tf_points)))
                 (List.length tf_points) = false).
  { rewrite CompandFacts.set_distinct.
    - rewrite length_map. apply Nat.ltb_irrefl.
    - rewrite map_map. exact Hnd. }
  unfold compand, bind.
  rewrite Ha, Ha0, Hd, Hd0, E3, E4, E5, E6, E7. simpl.
  destruct (attack_time >? decay_time)%py; simpl;
    destruct soft_knee_db; rewrite ?app_nil_r; reflexivity.
Qed.

(** C6, as the code has it.  For numeric arguments, [compand] raises a
    validation error and appends nothing when [tf_points] is empty, has
    a level above zero, or has two points with equal input levels.  A
    call with positive times and distinct input levels, none above zero
    and none a NaN, appends [compand], the attack and decay times, and
    the points joined by commas in ascending order of input level, after
    the soft knee if there is one: the points as supplied, rearranged,
    and the call does the same for every order in which they are
    supplied. *)
Theorem compand_sorts_points (w : World) (attack_time decay_time : number)
    (soft_knee_db : option number) (tf_points : list (number * number)) :
  is_number attack_time = true ->
  is_number decay_time = true ->
  match soft_knee_db with
  | Some k => is_number k = true
  | None => True
  end ->
  Forall numbers tf_points ->
  (tf_points = []
   \/ (exists p, In p tf_points
                 /\ ((fst p >? PInt 0)%py = true
                     \/ (snd p >? PInt 0)%py = true))
   \/ (exists l1 p l2 q l3,
         tf_points = l1 ++ p :: l2 ++ q :: l3
         /\ (fst p =? fst q)%py = true) ->
   exists msg w',
     compand env attack_time decay_time soft_knee_db tf_points w
     = (Raises (ValueError msg), w')
     /\ self w' = self w)
  /\ (sorts_by_x (sorted env) ->
      (attack_time <=? PInt 0)%py = false ->
      (decay_time <=? PInt 0)%py = false ->
      tf_points <> [] ->
      Forall not_above_zero tf_points ->
      Forall ordered tf_points ->
      NoDup (map x_value tf_points) ->
      let arranged := sorted env tf_points in
      let joined :=
        String.concat ","
          (flat_map (fun p => [format (fst p); format (snd p)]) arranged) in
      let outcome :=
        compand env attack_time decay_time soft_knee_db tf_points w in
      Permutation tf_points arranged
      /\ StronglySorted x_lt arranged
      /\ fst outcome = Returns tt
      /\ self (snd outcome) =
           committed (self w)
             ["compand";
              (format attack_time ++ "," ++ format decay_time)%string;
              match soft_knee_db with
              | Some k => (format k ++ ":" ++ joined)%string
              | None => joined
              end]
             "compand"
      /\ (forall tf_points',
            Permutation tf_points tf_points' ->
            compand env attack_time decay_time soft_knee_db tf_points' w
            = outcome)).
Proof.
  intros Ha Hd Hk Hnum. split.
  - intro Hbad. unfold compand, bind.
    fires E1. fires E2.
    destruct (attack_time >? decay_time)%py; simpl.
    all: fires E3; fires E4; fires E5; fires E6; fires E7; exfalso.
    all: destruct Hbad as [H | [[p [Hin Hp]] | [l1 [p [l2 [q [l3 [H Hpq]]]]]]]].
    all: try (subst tf_points; discriminate E4).
    all: try (assert (Hex : existsb
                 (fun p => (fst p >? PInt 0)%py || (snd p >? PInt 0)%py)
                 tf_points = true)
              by (apply existsb_exists; exists p; split;
                  [exact Hin | destruct Hp as [-> | ->];
                               auto using orb_true_r]);
              congruence).
    all: subst tf_points; apply Nat.ltb_ge in E7;
      rewrite <- (length_map fst (l1 ++ p :: l2 ++ q :: l3)) in E7;
      rewrite !map_app in E7; simpl in E7; rewrite !map_app in E7;
      simpl in E7;
      pose proof (CompandFacts.set_duplicate
                    (map fst l1) (map fst l2) (map fst l3) _ _ Hpq);
      lia.
  - intros Hsort Ha0 Hd0 Hne Hnp Hord Hnd arranged joined outcome.
    pose proof (compand_accepted w attack_time decay_time soft_knee_db
                  tf_points Ha Ha0 Hd Hd0 Hk Hne Hnum Hnp Hnd) as Hrun.
    cbv zeta in Hrun.
    split; [apply CompandFacts.sorted_permutation; exact Hsort |].
    split; [apply CompandFacts.sorted_ascending; assumption |].
    unfold outcome, joined, arranged. rewrite Hrun.
    split; [reflexivity |]. split; [reflexivity |].
    intros pts' Hperm.
    rewrite (compand_accepted w attack_time decay_time soft_knee_db pts').
    + rewrite (CompandFacts.sorted_any_order _ Hsort tf_points pts');
        auto.
    + exact Ha.
    + exact Ha0.
    + exact Hd.
    + exact Hd0.
    + exact Hk.
    + intros ->. apply Permutation_sym, Permutation_nil in Hperm.
      contradiction.
    + exact (Permutation_Forall Hperm Hnum).
    + exact (Permutation_Forall Hperm Hnp).
    + exact (Permutation_NoDup (Permutation_map x_value Hperm) Hnd).
Qed.

End Compand.

Lemma compand_sorts_points_witness :
  effects (self (snd (compand obliging (PFloat 0.3) (PFloat 0.8)
                        (Some (PFloat 6))
                        [(PInt (-20), PInt (-20)); (PInt (-70), PInt (-70));
                         (PInt 0, PInt (-5))] fresh)))
  = ["compand"; "0.3,0.8"; "6.0:-70,-70,-20,-20,0,-5"]
  /\ exists msg,
       fst (compand obliging (PFloat 0.3) (PFloat 0.8) (Some (PFloat 6))
              [(PInt (-10), PInt (-10)); (PInt (-10), PInt (-5))] fresh)
       = Raises (ValueError msg).
Proof.
  destruct (compand_sorts_points obliging fresh (PFloat 0.3) (PFloat 0.8)
              (Some (PFloat 6))
              [(PInt (-20), PInt (-20)); (PInt (-70), PInt (-70));
               (PInt 0, PInt (-5))]
              eq_refl eq_refl eq_refl ltac:(repeat constructor))
    as [_ Hok].
  destruct (compand_sorts_points obliging fresh (PFloat 0.3) (PFloat 0.8)
              (Some (PFloat 6))
              [(PInt (-10), PInt (-10)); (PInt (-10), PInt (-5))]
              eq_refl eq_refl eq_refl ltac:(repeat constructor))
    as [Hbad _].
  split.
  - assert (Hnd : NoDup (map x_value
                    [(PInt (-20), PInt (-20)); (PInt (-70), PInt (-70));
                     (PInt 0, PInt (-5))])).
    { vm_compute. repeat constructor; simpl; intuition discriminate. }
    destruct (Hok CompandFacts.insertion_sort_sorts eq_refl eq_refl
                ltac:(discriminate)
                ltac:(repeat constructor)
                ltac:(repeat constructor; discriminate)
                Hnd) as [_ [_ [_ [Hself _]]]].
    rewrite Hself. reflexivity.
  - destruct (Hbad (or_intror (or_intror
                (ex_intro _ []
                  (ex_intro _ (PInt (-10), PInt (-10))
                    (ex_intro _ []
                      (ex_intro _ (PInt (-10), PInt (-5))
                        (ex_intro _ [] (conj eq_refl eq_refl)))))))))
      as [msg [w' [H _]]].
    exists msg. rewrite H. reflexivity.
Defined.

(** C6, as stated, fails: a NaN input level is not above zero, so
    the call is accepted, and no arrangement of its points ascends by
    input level.  Neither of [-5 < nan] and [nan < -5] holds, so a sort
    that moves a point only when a comparison tells it to leaves the two
    points as they were supplied, in either order. *)
Lemma compand_accepts_unordered_level :
  effects (self (snd (compand obliging (PFloat 0.3) (PFloat 0.8)
                        (Some (PFloat 6))
                        [(PFloat nan, PInt (-1)); (PInt (-5), PInt (-5))]
                        fresh)))
  = ["compand"; "0.3,0.8"; "6.0:nan,-1,-5,-5"]
  /\ effects (self (snd (compand obliging (PFloat 0.3) (PFloat 0.8)
                           (Some (PFloat 6))
                           [(PInt (-5), PInt (-5)); (PFloat nan, PInt (-1))]
                           fresh)))
     = ["compand"; "0.3,0.8"; "6.0:-5,-5,nan,-1"]
  /\ ~ exists arranged,
         Permutation [(PFloat nan, PInt (-1)); (PInt (-5), PInt (-5))]
           arranged
         /\ StronglySorted x_lt arranged.
Proof.
  split; [vm_compute; reflexivity |].
  split; [vm_compute; reflexivity |].
  intros [arranged [Hperm Hsorted]].
  pose proof (Permutation_length Hperm) as Hlen.
  destruct arranged as [| a [| b [| c l]]]; try discriminate Hlen.
  inversion Hsorted as [| ? ? _ Hab]; subst.
  inversion Hab as [| ? ? Hlt _]; subst.
  assert (Ha : In a [(PFloat nan, PInt (-1)); (PInt (-5), PInt (-5))]).
  { apply (Permutation_in _ (Permutation_sym Hperm)). left. reflexivity. }
  assert (Hb : In b [(PFloat nan, PInt (-1)); (PInt (-5), PInt (-5))]).
  { apply (Permutation_in _ (Permutation_sym Hperm)). right. left.
    reflexivity. }
  destruct Ha as [<- | [<- | []]]; destruct Hb as [<- | [<- | []]];
    vm_compute in Hlt; discriminate.
Qed.

(** * What a builder call leaves alone *)

Lemma keeps_bind {A B C} (part : World -> C) (c : M A) (k : A -> M B) :
  keeps part c -> (forall a, keeps part (k a)) -> keeps part (bind c k).
Proof.
  intros Hc Hk w. unfold bind.
  specialize (Hc w). destruct (c w) as [[a | e] w']; simpl in *.
  - rewrite Hk. exact Hc.
  - exact Hc.
Qed.

Lemma keeps_raise_if {C} (part : World -> C) (cond : bool) (e : exn) :
  keeps part (raise_if cond e).
Proof. intro w. destruct cond; reflexivity. Qed.

Lemma keeps_item {A C} (part : World -> C) (xs : list A) (i : nat) :
  keeps part (item xs i).
Proof. intro w. unfold item. destruct (nth_error xs i); reflexivity. Qed.

Lemma keeps_arithmetic {C} (part : World -> C) (r : option number) :
  keeps part (arithmetic r).
Proof. intro w. destruct r; reflexivity. Qed.

Lemma keeps_for_each {A B C} (part : World -> C) (body : A -> M B)
    (xs : list A) :
  (forall x, keeps part (body x)) -> keeps part (for_each body xs).
Proof.
  intro Hbody. induction xs as [| x xs IH]; simpl.
  - intro w. reflexivity.
  - apply keeps_bind; [apply Hbody | intro b].
    apply keeps_bind; [exact IH | intro bs]. intro w. reflexivity.
Qed.

(** Walks through a method body; what is left are the steps that write
    the part in question. *)
Ltac keeps_tac :=
  cbv zeta;
  repeat first
    [ apply keeps_raise_if
    | apply keeps_item
    | apply keeps_arithmetic
    | apply keeps_bind; [| intro]
    | apply keeps_for_each; intro
    | match goal with
      | |- keeps _ (match ?x with _ => _ end) => destruct x
      end
    | solve [intro; reflexivity] ].

(** Opens the body of every builder method. *)
Ltac open_methods :=
  unfold set_globals, set_input_format, set_output_format, validate_format,
    convert, allpass, bandpass, bandreject, bass, biquad, channels, chorus,
    voices, compand, contrast, dcshift, deemph, delay, downsample, earwax,
    equalizer, fade, gain, highpass, lowpass, loudness, norm, overdrive,
    pad, pitch, rate, reverb, reverse, silence, swap, tempo, treble,
    tremolo, trim, upsample, vad, run_stub, bend, echo, echos, fir, flanger,
    hilbert, mcompand, noisered, oops, phaser, remix, repeat, sinc, speed,
    splice, stretch.

Section Frames.
Context (env : Collaborators).

Lemma run_keeps_invoked (c : call) : keeps invoked (run env c).
Proof. destruct c; simpl; open_methods; keeps_tac. Qed.

Lemma run_keeps_drawn (c : call) :
  match c with
  | Chorus _ _ _ _ _ _ _ _ => True
  | _ => keeps drawn (run env c)
  end.
Proof. destruct c; try exact I; simpl; open_methods; keeps_tac. Qed.

Lemma run_keeps_logged (c : call) :
  match c with
  | Pitch _ _ | Tempo _ _ _ | Compand _ _ _ _ => True
  | _ => keeps logged (run env c)
  end.
Proof. destruct c; try exact I; simpl; open_methods; keeps_tac. Qed.

Lemma run_keeps_globals (c : call) :
  sets_globals c = false -> keeps (fun w => globals (self w)) (run env c).
Proof.
  destruct c; try discriminate; intros _; simpl; open_methods; keeps_tac.
Qed.

Lemma run_keeps_input_format (c : call) :
  sets_input_format c = false ->
  keeps (fun w => input_format (self w)) (run env c).
Proof.
  destruct c; try discriminate; intros _; simpl; open_methods; keeps_tac.
Qed.

Lemma run_keeps_output_format (c : call) :
  sets_output_format c = false ->
  keeps (fun w => output_format (self w)) (run env c).
Proof.
  destruct c; try discriminate; intros _; simpl; open_methods; keeps_tac.
Qed.

Lemma run_keeps_effects (c : call) :
  is_setter c = true ->
  keeps (fun w => (effects (self w), effects_log (self w))) (run env c).
Proof.
  destruct c; try discriminate; intros _; simpl; open_methods; keeps_tac.
Qed.

End Frames.

Section Reach.
Context (env : Collaborators).

(** X1.  No sequence of builder calls reaches outside the Transformer:
    the validators, the engine and the player are called by [build] and
    [preview] only. *)
Theorem builder_calls_never_call_out (cs : list call) (w : World) :
  invoked (run_all env cs w) = invoked w.
Proof.
  revert w. induction cs as [| c cs IH]; intro w; simpl.
  - reflexivity.
  - rewrite IH. apply run_keeps_invoked.
Qed.

(** X2.  [chorus] is the only builder method that draws from [random],
    and [pitch], [tempo] and [compand] are the only ones that write to
    the log of diagnostics: every other call leaves both as they
    were, whether it returns or raises. *)
Theorem random_and_logging_users (c : call) (w : World) :
  match c with
  | Chorus _ _ _ _ _ _ _ _ => True
  | _ => drawn (snd (run env c w)) = drawn w
  end
  /\ match c with
     | Pitch _ _ | Tempo _ _ _ | Compand _ _ _ _ => True
     | _ => logged (snd (run env c w)) = logged w
     end.
Proof.
  pose proof (run_keeps_drawn env c) as Hd.
  pose proof (run_keeps_logged env c) as Hl.
  split; destruct c; try exact I; first [apply Hd | apply Hl].
Qed.

(** X3.  Each option list of the Transformer has its own writers: only
    [set_globals] changes the globals, only [set_input_format] the input
    format, only [set_output_format] and [convert] the output format,
    and none of the three setters touches the effects or their log. *)
Theorem calls_write_their_own_part (c : call) (w : World) :
  let t := self w in
  let t' := self (snd (run env c w)) in
  (sets_globals c = false -> globals t' = globals t)
  /\ (sets_input_format c = false -> input_format t' = input_format t)
  /\ (sets_output_format c = false -> output_format t' = output_format t)
  /\ (is_setter c = true ->
      effects t' = effects t /\ effects_log t' = effects_log t).
Proof.
  cbv zeta. split; [| split; [| split]]; intro H.
  - exact (run_keeps_globals env c H w).
  - exact (run_keeps_input_format env c H w).
  - exact (run_keeps_output_format env c H w).
  - pose proof (run_keeps_effects env c H w) as E. simpl in E.
    split; congruence.
Qed.

End Reach.

Lemma calls_write_their_own_part_witness :
  output_format
    (self (snd (run obliging (Trim (PInt 2) (PInt 5))
                  (snd (convert None None (Some 16) fresh)))))
  = ["-b"; "16"]
  /\ effects
       (self (snd (run obliging (Set_globals true false false false 1)
                     (snd (trim (PInt 2) (PInt 5) fresh)))))
     = ["trim"; "2"; "3"].
Proof.
  destruct (calls_write_their_own_part obliging (Trim (PInt 2) (PInt 5))
              (snd (convert None None (Some 16) fresh)))
    as [_ [_ [Hout _]]].
  destruct (calls_write_their_own_part obliging
              (Set_globals true false false false 1)
              (snd (trim (PInt 2) (PInt 5) fresh)))
    as [_ [_ [_ Heff]]].
  split.
  - rewrite (Hout eq_refl). reflexivity.
  - rewrite (proj1 (Heff eq_refl)). reflexivity.
Defined.

(** * Invariants of the option lists *)

Lemma set_globals_outcome (dither guard multithread replay_gain : bool)
    (verbosity : Z) (w : World) :
  set_globals dither guard multithread replay_gain verbosity w =
    if existsb (Z.eqb verbosity) VERBOSITY_VALS then
      (Returns tt,
       with_self w
         (mkTransformer
            (when (negb dither) ["-D"] ++ when guard ["-G"]
             ++ when multithread ["--multi-threaded"]
             ++ when replay_gain ["--replay-gain"; "track"]
             ++ [("-V" ++ Repr.int verbosity)%string])
            (input_format (self w)) (output_format (self w))
            (effects (self w)) (effects_log (self w))))
    else
      (Raises
         (ValueError
            "Invalid value for VERBOSITY. Must be one [0, 1, 2, 3, 4]"),
       w).
Proof.
  unfold set_globals, bind.
  destruct (existsb (Z.eqb verbosity) VERBOSITY_VALS); reflexivity.
Qed.

Lemma paired_app (flags l1 l2 : list string) :
  paired flags l1 = true -> paired flags l2 = true ->
  paired flags (l1 ++ l2) = true.
Proof.
  intros H1 H2.
  assert (H : forall n l, (List.length l <= n)%nat ->
                paired flags l = true -> paired flags (l ++ l2) = true).
  { induction n as [| n IH]; intros l Hlen Hl.
    - destruct l; [exact H2 | simpl in Hlen; lia].
    - destruct l as [| f [| v rest]]; simpl in *; try discriminate.
      + exact H2.
      + apply andb_prop in Hl. destruct Hl as [Hf Hrest].
        rewrite Hf. simpl. apply IH; [lia | exact Hrest]. }
  exact (H (List.length l1) l1 (Nat.le_refl _) H1).
Qed.

Lemma format_args_paired (file_type : option string) (rate : option number)
    (bits channels : option Z) (encoding : option string) :
  paired input_flags (format_args file_type rate bits channels encoding)
  = true.
Proof. destruct file_type, rate, bits, channels, encoding; reflexivity. Qed.

Lemma output_args_paired (file_type : option string) (rate : option number)
    (bits channels : option Z) (encoding comments : option string)
    (append_comments : bool) :
  paired output_flags
    (format_args file_type rate bits channels encoding
     ++ unless_None comments (fun c =>
          if append_comments then ["--add-comment"; c] else ["--comment"; c]))
  = true.
Proof.
  destruct file_type, rate, bits, channels, encoding, comments,
    append_comments; reflexivity.
Qed.

Lemma convert_output_format (samplerate : option number)
    (n_channels bitdepth : option Z) (w : World) :
  exists extra,
    output_format (self (snd (convert samplerate n_channels bitdepth w)))
    = output_format (self w) ++ extra
    /\ paired output_flags extra = true.
Proof.
  unfold convert, rate, bind. cbv zeta.
  destruct bitdepth, n_channels, samplerate; simpl;
    repeat (step; try (exists []; rewrite app_nil_r; split; reflexivity)).
  all: try (exists []; rewrite app_nil_r; split; reflexivity).
  all: try rewrite <- app_assoc.
  all: eexists; split; [reflexivity | reflexivity].
Qed.

Section Invariants.
Context (env : Collaborators).

(** X4.  On a Transformer that started new, after any sequence of
    builder calls the globals are a list of the known flags followed by
    one verbosity flag with a level from 0 to 4: a rejected
    [set_globals] never leaves them half-written. *)
Theorem globals_end_with_verbosity (cs : list call) :
  exists flags verbosity,
    globals (self (run_all env cs fresh))
    = flags ++ [("-V" ++ Repr.int verbosity)%string]
    /\ In verbosity VERBOSITY_VALS
    /\ incl flags ["-D"; "-G"; "--multi-threaded"; "--replay-gain"; "track"].
Proof.
  assert (H : forall cs w,
    (exists flags verbosity,
       globals (self w) = flags ++ [("-V" ++ Repr.int verbosity)%string]
       /\ In verbosity VERBOSITY_VALS
       /\ incl flags
            ["-D"; "-G"; "--multi-threaded"; "--replay-gain"; "track"]) ->
    exists flags verbosity,
       globals (self (run_all env cs w))
       = flags ++ [("-V" ++ Repr.int verbosity)%string]
       /\ In verbosity VERBOSITY_VALS
       /\ incl flags
            ["-D"; "-G"; "--multi-threaded"; "--replay-gain"; "track"]).
  { clear cs. induction cs as [| c cs IH]; intros w Hw; simpl; [exact Hw |].
    apply IH. destruct (sets_globals c) eqn:Hc.
    - destruct c; try discriminate. simpl. rewrite set_globals_outcome.
      destruct (existsb (Z.eqb verbosity) VERBOSITY_VALS) eqn:Hv;
        [| exact Hw].
      simpl. eexists _, verbosity. split; [| split].
      + rewrite !app_assoc. reflexivity.
      + apply existsb_exists in Hv. destruct Hv as [v [Hin Hv]].
        apply Z.eqb_eq in Hv. subst v. exact Hin.
      + destruct dither, guard, multithread, replay_gain; simpl;
          intros x Hx; simpl in Hx; simpl; tauto.
    - pose proof (run_keeps_globals env c Hc w) as Hk. simpl in Hk.
      rewrite Hk. exact Hw. }
  apply H. exists ["-D"], 2. split; [reflexivity |].
  split; [simpl; tauto | intros x Hx; simpl in *; tauto].
Qed.

(** X5.  On a Transformer that started new, after any sequence of
    builder calls the output format is a list of [flag, value] pairs
    with known flags, and the input format is such a list followed at
    most by [--ignore-length]; this holds even after a [convert] that
    raised part-way. *)
Theorem format_lists_are_flag_value_pairs (cs : list call) :
  let t := self (run_all env cs fresh) in
  paired output_flags (output_format t) = true
  /\ exists pairs tail,
       input_format t = pairs ++ tail
       /\ paired input_flags pairs = true
       /\ (tail = [] \/ tail = ["--ignore-length"]).
Proof.
  assert (H : forall cs w,
    (paired output_flags (output_format (self w)) = true
     /\ exists pairs tail,
          input_format (self w) = pairs ++ tail
          /\ paired input_flags pairs = true
          /\ (tail = [] \/ tail = ["--ignore-length"])) ->
    paired output_flags (output_format (self (run_all env cs w))) = true
    /\ exists pairs tail,
         input_format (self (run_all env cs w)) = pairs ++ tail
         /\ paired input_flags pairs = true
         /\ (tail = [] \/ tail = ["--ignore-length"])).
  { clear cs. induction cs as [| c cs IH]; intros w Hw; simpl; [exact Hw |].
    apply IH. destruct Hw as [Hout Hin]. split.
    - destruct (sets_output_format c) eqn:Hc.
      + destruct c; try discriminate; simpl.
        * unfold set_output_format, bind. cbv zeta.
          match goal with
          | |- context [validate_format env ?a ?b ?c ?d ?e w] =>
              pose proof (pure_validate_format env a b c d e w) as Hp;
              destruct (validate_format env a b c d e w) as [[u | e'] w']
          end; simpl in *.
          -- apply output_args_paired.
          -- rewrite Hp. exact Hout.
        * destruct (convert_output_format samplerate n_channels bitdepth w)
            as [extra [E Hextra]].
          rewrite E. apply paired_app; assumption.
      + pose proof (run_keeps_output_format env c Hc w) as Hk.
        simpl in Hk. rewrite Hk. exact Hout.
    - destruct (sets_input_format c) eqn:Hc.
      + destruct c; try discriminate; simpl.
        unfold set_input_format, bind. cbv zeta.
        match goal with
        | |- context [validate_format env ?a ?b ?c ?d ?e w] =>
            pose proof (pure_validate_format env a b c d e w) as Hp;
            destruct (validate_format env a b c d e w) as [[u | e'] w']
        end; simpl in *.
        * eexists _, _. split; [reflexivity |].
          split; [apply format_args_paired |].
          destruct ignore_length; simpl; auto.
        * rewrite Hp. exact Hin.
      + pose proof (run_keeps_input_format env c Hc w) as Hk.
        simpl in Hk. rewrite Hk. exact Hin. }
  cbv zeta. apply H. split; [reflexivity |].
  exists [], []. repeat split. left. reflexivity.
Qed.

End Invariants.

(** * The effects and their log *)

Lemma emits_raise (name : string) (e : exn) : emits name (raise e).
Proof. intro w. reflexivity. Qed.

Lemma emits_bind {A} (name : string) (c : M A) (k : A -> M unit) :
  pure c -> (forall a, emits name (k a)) -> emits name (bind c k).
Proof.
  intros Hc Hk w. unfold bind.
  specialize (Hc w). destruct (c w) as [[a | e] w']; simpl in *.
  - specialize (Hk a w'). destruct (k a w') as [[u | e] w''].
    + destruct Hk as [tok [toks H]]. exists tok, toks.
      rewrite H, Hc. reflexivity.
    + rewrite Hk. exact Hc.
  - exact Hc.
Qed.

Lemma emits_commit (name : string) (toks : list string) :
  toks <> [] ->
  emits name (extend_effects toks ;; append_effects_log name).
Proof.
  intros Hne w. destruct toks as [| tok toks]; [contradiction |].
  simpl. exists tok, toks. reflexivity.
Qed.

(** A group of tokens that begins with a literal, whatever its optional
    parts, is not empty. *)
Ltac not_empty :=
  cbn [app when unless_None];
  repeat match goal with
         | |- context [when ?b _] => destruct b; cbn [app when]
         | |- context [if ?b then _ else _] => destruct b; cbn [app]
         | |- context [unless_None ?x _] => destruct x; cbn [app unless_None]
         end;
  discriminate.

Ltac emits_tac :=
  cbv zeta;
  repeat first
    [ apply emits_commit; not_empty
    | apply emits_raise
    | apply emits_bind; [solve [pure_tac] | intro] ].

Lemma fade_emits (fade_in_len fade_out_len : number) (fade_shape : string)
    (w : World) :
  match fade fade_in_len fade_out_len fade_shape w with
  | (Returns _, w') =>
      if empty_fade (Fade fade_in_len fade_out_len fade_shape)
      then w' = w
      else exists tok toks,
             self w' = committed (self w) (tok :: toks) "fade"
  | (Raises _, w') => w' = w
  end.
Proof.
  unfold fade, bind, empty_fade. cbv zeta.
  destruct (fade_in_len >? PInt 0)%py, (fade_out_len >? PInt 0)%py; simpl;
    repeat (step; try reflexivity); eexists; eexists; reflexivity.
Qed.

Lemma convert_emits (samplerate : option number)
    (n_channels bitdepth : option Z) (w : World) :
  let t := self w in
  match convert samplerate n_channels bitdepth w with
  | (Returns _, w') =>
      effects (self w')
      = effects t ++ unless_None samplerate
                       (fun r => ["rate"; "-h"; format r])
      /\ effects_log (self w')
         = effects_log t ++ unless_None samplerate (fun _ => ["rate"])
  | (Raises _, w') =>
      effects (self w') = effects t
      /\ effects_log (self w') = effects_log t
  end.
Proof.
  unfold convert, rate, bind. cbv zeta.
  destruct bitdepth, n_channels, samplerate; simpl;
    repeat (step; try (split; reflexivity));
    try (split; reflexivity); rewrite !app_nil_r; split; reflexivity.
Qed.

Section Log.
Context (env : Collaborators).

Lemma run_emits (c : call) :
  match c with
  | Set_globals _ _ _ _ _ | Set_input_format _ _ _ _ _ _
  | Set_output_format _ _ _ _ _ _ _ | Convert _ _ _ | Fade _ _ _ => True
  | _ => emits (name_of c) (run env c)
  end.
Proof.
  destruct c; try exact I; simpl;
    try (unfold allpass, bandpass, bandreject, bass, biquad, channels,
           chorus, compand, contrast, dcshift, deemph, delay, downsample,
           earwax, equalizer, gain, highpass, lowpass, loudness, norm,
           overdrive, pad, pitch, rate, reverb, reverse, silence, swap,
           tempo, treble, tremolo, trim, upsample, vad;
         emits_tac; fail).
  destruct m; apply emits_raise.
Qed.

(** What one call adds: some tokens, and its name when there are any. *)
Lemma run_adds (c : call) (w : World) :
  exists toks,
    effects (self (snd (run env c w))) = effects (self w) ++ toks
    /\ effects_log (self (snd (run env c w)))
       = effects_log (self w)
         ++ (if Nat.eqb (emitting_invocations env c w) 0
             then [] else [name_of c])
    /\ (toks = [] <-> emitting_invocations env c w = 0%nat).
Proof.
  destruct (is_setter c) eqn:Hs.
  { exists [].
    pose proof (run_keeps_effects env c Hs w) as E. simpl in E.
    injection E as E1 E2. rewrite E1, E2, !app_nil_r.
    assert (H0 : emitting_invocations env c w = 0%nat)
      by (destruct c; try discriminate; reflexivity).
    rewrite H0. simpl. rewrite ?app_nil_r. repeat split; auto. }
  pose proof (run_emits c) as He.
  unfold emitting_invocations, effect_invocations, returns.
  destruct c; try discriminate Hs;
    try match type of He with
        | emits _ _ =>
            specialize (He w); cbn [empty_fade];
            destruct (run env _ w) as [[u | e] w']; cbn [fst snd];
            [ destruct He as [tok [toks He]]; exists (tok :: toks);
              rewrite He; simpl; repeat split; try discriminate
            | exists []; rewrite He, !app_nil_r; repeat split ]
        end;
    clear He Hs.
  - pose proof (convert_emits samplerate n_channels bitdepth w) as H.
    cbv zeta in H. cbn [run empty_fade].
    destruct (convert samplerate n_channels bitdepth w) as [[u | e] w'];
      destruct H as [H1 H2]; cbn [fst snd]; rewrite H1, H2;
      destruct samplerate; simpl;
      first [ exists []; rewrite !app_nil_r; repeat split; fail
            | eexists; repeat split; discriminate ].
  - pose proof (fade_emits fade_in_len fade_out_len fade_shape w) as H.
    cbn [run]. 
    destruct (fade fade_in_len fade_out_len fade_shape w) as [[u | e] w'];
      destruct (empty_fade _); cbn [fst snd].
    + subst w'. exists []. rewrite !app_nil_r. repeat split.
    + destruct H as [tok [toks H]]. exists (tok :: toks). rewrite H. simpl.
      repeat split; discriminate.
    + subst w'. exists []. rewrite !app_nil_r. repeat split.
    + subst w'. exists []. rewrite !app_nil_r. repeat split.
Qed.

(** X6.  The effects log lists, in call order, the name of every call
    that made an emitting invocation: the method's own name, and [rate]
    for a [convert] that was given a sample rate.  Calls that raise,
    setters and an empty [fade] leave no entry. *)
Theorem effects_log_lists_names (cs : list call) (w : World) :
  effects_log (self (run_all env cs w))
  = effects_log (self w) ++ log_entries env cs w.
Proof.
  revert w. induction cs as [| c cs IH]; intro w; simpl.
  - rewrite app_nil_r. reflexivity.
  - rewrite IH. destruct (run_adds c w) as [toks [_ [Hlog _]]].
    rewrite Hlog, <- app_assoc. reflexivity.
Qed.

(** X7.  The effects and their log are append-only and grow together:
    a sequence of builder calls keeps what both held, in order, and
    adds tokens exactly when it adds log entries, never more entries
    than tokens. *)
Theorem effects_and_log_grow_together (cs : list call) (w : World) :
  exists toks names,
    effects (self (run_all env cs w)) = effects (self w) ++ toks
    /\ effects_log (self (run_all env cs w)) = effects_log (self w) ++ names
    /\ (toks = [] <-> names = [])
    /\ (List.length names <= List.length toks)%nat.
Proof.
  revert w. induction cs as [| c cs IH]; intro w; simpl.
  - exists [], []. rewrite !app_nil_r. repeat split; auto.
  - destruct (IH (snd (run env c w))) as [toks [names [He [Hl [Hiff Hle]]]]].
    destruct (run_adds c w) as [toks0 [He0 [Hl0 Hz]]].
    exists (toks0 ++ toks).
    exists ((if Nat.eqb (emitting_invocations env c w) 0
             then [] else [name_of c]) ++ names).
    rewrite He, Hl, He0, Hl0, !app_assoc.
    split; [reflexivity |]. split; [reflexivity |].
    destruct (Nat.eqb_spec (emitting_invocations env c w) 0) as [E | E].
    + rewrite (proj2 Hz E). simpl. split; assumption.
    + destruct toks0 as [| tok toks0].
      * exfalso. apply E. apply Hz. reflexivity.
      * simpl. split; [split; discriminate |].
        rewrite length_app. lia.
Qed.

End Log.

(** A rejected [set_output_format] and a rejected [chorus] each leave
    the Transformer of the previous call. *)
Lemma failed_call_keeps_transformer_witness :
  self (snd (run obliging
               (Set_output_format (Some "wav") None (Some 0) None None None
                  true)
               (snd (trim (PInt 2) (PInt 5) fresh))))
  = self (snd (trim (PInt 2) (PInt 5) fresh))
  /\ self (snd (run obliging
                  (Chorus (PFloat 0.5) (PFloat 0.9) 2
                     (Some [PInt 50; PInt 10]) None None None None)
                  fresh))
     = self fresh.
Proof.
  split.
  - apply (failed_call_keeps_transformer obliging
             (Set_output_format (Some "wav") None (Some 0) None None None
                true)
             (snd (trim (PInt 2) (PInt 5) fresh))
             (ValueError "bits must be a positive number") I).
    reflexivity.
  - apply (failed_call_keeps_transformer obliging
             (Chorus (PFloat 0.5) (PFloat 0.9) 2
                (Some [PInt 50; PInt 10]) None None None None)
             fresh
             (ValueError "the elements of delays must be numbers > 20") I).
    reflexivity.
Defined.


(** * Setters replace, convert appends *)

(** X9.  [set_globals] replaces: with a verbosity from 0 to 4 it
    leaves exactly its own flags, in the order dither, guard,
    multithread, replay gain, verbosity, whatever an earlier
    [set_globals] had set or tried to set. *)
Theorem set_globals_replaces (w : World)
    (dither guard multithread replay_gain : bool) (verbosity : Z)
    (dither' guard' multithread' replay_gain' : bool) (verbosity' : Z) :
  In verbosity VERBOSITY_VALS ->
  let earlier :=
    snd (set_globals dither' guard' multithread' replay_gain' verbosity' w) in
  let later :=
    set_globals dither guard multithread replay_gain verbosity earlier in
  fst later = Returns tt
  /\ globals (self (snd later))
     = when (negb dither) ["-D"] ++ when guard ["-G"]
       ++ when multithread ["--multi-threaded"]
       ++ when replay_gain ["--replay-gain"; "track"]
       ++ [("-V" ++ Repr.int verbosity)%string]
  /\ self (snd later)
     = self (snd (set_globals dither guard multithread replay_gain
                    verbosity w)).
Proof.
  intros Hv earlier later.
  assert (E : existsb (Z.eqb verbosity) VERBOSITY_VALS = true).
  { apply existsb_exists. exists verbosity. split; [exact Hv |].
    apply Z.eqb_refl. }
  unfold later, earlier. rewrite !set_globals_outcome, E.
  destruct (existsb (Z.eqb verbosity') VERBOSITY_VALS);
    repeat split; reflexivity.
Qed.

Lemma set_globals_replaces_witness :
  globals
    (self (snd (set_globals true true false true 0
                  (snd (set_globals false false true false 4 fresh)))))
  = ["-G"; "--replay-gain"; "track"; "-V0"]
  /\ globals
       (self (snd (set_globals false false false false 3
                     (snd (set_globals true true true true 9 fresh)))))
     = ["-D"; "-V3"].
Proof.
  destruct (set_globals_replaces fresh true true false true 0
              false false true false 4
              (or_introl eq_refl)) as [_ [H1 _]].
  destruct (set_globals_replaces fresh false false false false 3
              true true true true 9
              (or_intror (or_intror (or_intror (or_introl eq_refl)))))
    as [_ [H2 _]].
  rewrite H1, H2. split; reflexivity.
Defined.


Section Setters.
Context (env : Collaborators).


End Setters.


(** X11.  [convert] appends.  With a bit depth among 8, 16, 24, 32 and
    64, a positive channel count and a positive sample rate, each given
    or not, it returns having added [-b depth] and then [-c channels]
    after whatever the output format held, and the tokens and log entry
    of [rate] at high quality for the sample rate; nothing is replaced,
    so flags written earlier stay in front. *)
Theorem convert_appends (w : World) (samplerate : option number)
    (n_channels bitdepth : option Z) :
  match bitdepth with
  | Some b => In b [8; 16; 24; 32; 64]
  | None => True
  end ->
  match n_channels with Some c => 0 < c | None => True end ->
  match samplerate with
  | Some r => is_number r = true /\ (r <=? PInt 0)%py = false
  | None => True
  end ->
  let t := self w in
  convert samplerate n_channels bitdepth w =
    (Returns tt,
     with_self w
       (mkTransformer (globals t) (input_format t)
          (output_format t
           ++ unless_None bitdepth (fun b => ["-b"; Repr.int b])
           ++ unless_None n_channels (fun c => ["-c"; Repr.int c]))
          (effects t
           ++ unless_None samplerate (fun r => ["rate"; "-h"; format r]))
          (effects_log t ++ unless_None samplerate (fun _ => ["rate"])))).
Proof.
  intros Hb Hc Hr t. unfold convert, rate. cbv zeta.
  assert (Eb : forall b, In b [8; 16; 24; 32; 64] ->
                 existsb (Z.eqb b) [8; 16; 24; 32; 64] = true).
  { intros b H. apply existsb_exists. exists b. split; [exact H |].
    apply Z.eqb_refl. }
  assert (Ec : forall c, 0 < c -> (c <=? 0) = false).
  { intros c H. apply Z.leb_gt. exact H. }
  destruct bitdepth as [b |]; [rewrite (Eb b Hb) |];
    (destruct n_channels as [c |]; [rewrite (Ec c Hc) |]);
    (destruct samplerate as [r |];
     [destruct Hr as [Hr1 Hr2]; rewrite Hr1, Hr2 |]);
    unfold bind, with_self, t; simpl;
    rewrite ?app_nil_r, <- ?app_assoc; try reflexivity;
    destruct w as [[g i o e l] lg iv d]; reflexivity.
Qed.

Lemma convert_appends_witness :
  output_format
    (self (snd (convert (Some (PInt 8000)) (Some 1) (Some 16)
                  (snd (set_output_format obliging None None (Some 24) None
                          None None true fresh)))))
  = ["-b"; "24"; "-b"; "16"; "-c"; "1"]
  /\ effects
       (self (snd (convert (Some (PInt 8000)) (Some 1) (Some 16)
                     (snd (set_output_format obliging None None (Some 24)
                             None None None true fresh)))))
     = ["rate"; "-h"; "8000"].
Proof.
  rewrite (convert_appends
             (snd (set_output_format obliging None None (Some 24) None
                     None None true fresh))
             (Some (PInt 8000)) (Some 1) (Some 16)
             (or_intror (or_introl eq_refl)) eq_refl (conj eq_refl eq_refl)).
  split; reflexivity.
Defined.

(** * Running the chain *)

Section Running.
Context (env : Collaborators).

(** What [build] does is decided by the Transformer and the paths: it
    adds the same calls and the same diagnostics to any world around
    that Transformer. *)
Lemma build_shape (input_filepath output_filepath : string) (t : Transformer) :
  exists result messages trace,
    forall w, self w = t ->
      build env input_filepath output_filepath w =
        (result,
         mkWorld t (logged w ++ messages) (invoked w ++ trace) (drawn w)).
Proof.
  unfold build, bind, collaborate, invoke, get_self. simpl.
  destruct (validate_input_file env input_filepath) as [e |] eqn:Ein.
  { exists (Raises e), [], [Validate_input_file input_filepath].
    intros w Hw. rewrite app_nil_r, <- Hw. reflexivity. }
  destruct (validate_output_file env output_filepath) as [e |] eqn:Eout.
  { exists (Raises e), [],
      [Validate_input_file input_filepath;
       Validate_output_file output_filepath].
    intros w Hw. simpl. rewrite app_nil_r, <- app_assoc, <- Hw.
    reflexivity. }
  destruct (sox env
              (globals t ++ input_format t ++ [input_filepath]
               ++ output_format t ++ [output_filepath] ++ effects t))
    as [[status out] err] eqn:Esox.
  simpl in Esox.
  destruct (negb (status =? 0)) eqn:Est.
  - eexists _, [], _. intros w Hw. simpl. rewrite Hw, Esox, Est. simpl.
    rewrite app_nil_r, <- !app_assoc. reflexivity.
  - destruct out as [o |].
    + eexists _, _, _. intros w Hw. simpl. rewrite Hw, Esox, Est. simpl.
      rewrite <- !app_assoc. reflexivity.
    + eexists _, _, _. intros w Hw. simpl. rewrite Hw, Esox, Est. simpl.
      rewrite <- !app_assoc. reflexivity.
Qed.

(** X12.  [build] and [preview] only read the Transformer, and [build]
    can be repeated: whatever its outcome, a second [build] with the
    same paths has the same outcome and hands the collaborators the
    same calls again. *)
Theorem build_and_preview_only_read (w : World)
    (input_filepath output_filepath : string) :
  let once := build env input_filepath output_filepath w in
  let twice := build env input_filepath output_filepath (snd once) in
  self (snd once) = self w
  /\ self (snd (preview env input_filepath w)) = self w
  /\ fst twice = fst once
  /\ exists trace,
       invoked (snd once) = invoked w ++ trace
       /\ invoked (snd twice) = invoked w ++ trace ++ trace.
Proof.
  cbv zeta.
  destruct (build_shape input_filepath output_filepath (self w))
    as [result [messages [trace H]]].
  rewrite (H w eq_refl). simpl.
  rewrite (H (mkWorld (self w) (logged w ++ messages) (invoked w ++ trace)
                (drawn w)) eq_refl).
  simpl.
  repeat split.
  - unfold preview, bind, get_self, collaborate, invoke. simpl.
    destruct (play env _); reflexivity.
  - exists trace. rewrite <- app_assoc. split; reflexivity.
Qed.

(** X13.  [build] stops at the first obstacle.  When the output path is
    rejected the engine is not called; when the engine's status is not
    zero [build] raises [SoxError] with the captured output and error
    text and records no diagnostic. *)
Theorem build_failures (w : World) (input_filepath output_filepath : string) :
  validate_input_file env input_filepath = None ->
  let t := self w in
  let args :=
    globals t ++ input_format t ++ [input_filepath]
    ++ output_format t ++ [output_filepath] ++ effects t in
  (forall e,
     validate_output_file env output_filepath = Some e ->
     build env input_filepath output_filepath w =
       (Raises e,
        mkWorld t (logged w)
          (invoked w ++ [Validate_input_file input_filepath;
                         Validate_output_file output_filepath])
          (drawn w)))
  /\ (forall status out err,
        validate_output_file env output_filepath = None ->
        sox env args = (status, out, err) ->
        status <> 0 ->
        build env input_filepath output_filepath w =
          (Raises (SoxError ("Stdout: " ++ format_text out ++ newline
                             ++ "Stderr: " ++ format_text err)%string),
           mkWorld t (logged w)
             (invoked w ++ [Validate_input_file input_filepath;
                            Validate_output_file output_filepath; Sox args])
             (drawn w))).
Proof.
  intros Hin t args.
  unfold build, bind, collaborate, invoke, get_self. simpl. rewrite Hin.
  simpl. split.
  - intros e He. rewrite He. simpl. rewrite <- app_assoc. reflexivity.
  - intros status out err Hout Hsox Hst. rewrite Hout. simpl.
    unfold args, t in Hsox. simpl in Hsox. rewrite Hsox.
    apply Z.eqb_neq in Hst. rewrite Hst. simpl.
    rewrite <- !app_assoc. reflexivity.
Qed.

(** X14.  When the engine's status is zero [build] returns [True] and
    records one diagnostic that names the output path and the effects
    log joined by spaces, followed by the engine's output text when
    there is one. *)
Theorem build_success_diagnostics (w : World)
    (input_filepath output_filepath : string)
    (out err : option string) :
  validate_input_file env input_filepath = None ->
  validate_output_file env output_filepath = None ->
  let t := self w in
  sox env (globals t ++ input_format t ++ [input_filepath]
           ++ output_format t ++ [output_filepath] ++ effects t)
  = (0, out, err) ->
  let outcome := build env input_filepath output_filepath w in
  fst outcome = Returns true
  /\ logged (snd outcome)
     = logged w
       ++ [(INFO,
            ("Created " ++ output_filepath ++ " with effects: "
             ++ String.concat " " (effects_log t))%string)]
       ++ match out with
          | Some o => [(INFO, ("[SoX] " ++ o)%string)]
          | None => []
          end.
Proof.
  intros Hin Hout t Hsox outcome. unfold outcome.
  unfold build, bind, collaborate, invoke, get_self. simpl.
  rewrite Hin, Hout. simpl.
  unfold t in Hsox. simpl in Hsox. rewrite Hsox. simpl.
  destruct out; simpl; split; try reflexivity.
  rewrite <- app_assoc. reflexivity.
Qed.

End Running.

Lemma build_failures_witness :
  build unwritable "in.wav" "/proc/out.wav" fresh
  = (Raises (IOError "output_filepath /proc/out.wav is not writeable."),
     mkWorld (self fresh) []
       [Validate_input_file "in.wav"; Validate_output_file "/proc/out.wav"]
       0)
  /\ fst (build failing "in.wav" "out.wav" fresh)
     = Raises (SoxError
                 ("Stdout: None" ++ newline
                  ++ "Stderr: sox FAIL formats: no handler")%string)
  /\ logged (snd (build failing "in.wav" "out.wav" fresh)) = [].
Proof.
  destruct (build_failures unwritable fresh "in.wav" "/proc/out.wav"
              eq_refl) as [Hout _].
  destruct (build_failures failing fresh "in.wav" "out.wav" eq_refl)
    as [_ Hsox].
  rewrite (Hout _ eq_refl).
  rewrite (Hsox 2 None (Some "sox FAIL formats: no handler")
             eq_refl eq_refl ltac:(discriminate)).
  repeat split.
Defined.

Lemma build_success_diagnostics_witness :
  logged
    (snd (build talkative "in.wav" "out.wav"
            (run_all talkative [Trim (PInt 2) (PInt 5); Reverse] fresh)))
  = [(INFO, "Created out.wav with effects: trim reverse");
     (INFO, "[SoX] done")].
Proof.
  destruct (build_success_diagnostics talkative
              (run_all talkative [Trim (PInt 2) (PInt 5); Reverse] fresh)
              "in.wav" "out.wav" (Some "done") None
              eq_refl eq_refl eq_refl) as [_ H].
  rewrite H. reflexivity.
Defined.


(** * The voices of chorus *)

Module ChorusFacts.

(** A loop whose body only reads collects the values it computes. *)
Lemma for_each_reads {A B} (body : A -> M B) (f : A -> B) (xs : list A)
    (w : World) :
  (forall x, In x xs -> body x w = (Returns (f x), w)) ->
  for_each body xs w = (Returns (map f xs), w).
Proof.
  induction xs as [| x xs IH]; intro H; simpl; [reflexivity |].
  unfold bind. rewrite (H x (or_introl eq_refl)).
  rewrite IH; [reflexivity |].
  intros y Hy. apply H. right. exact Hy.
Qed.

(** A loop of draws takes consecutive draws. *)
Lemma for_each_draws {A B} (random : nat -> B) (xs : list A) (w : World) :
  for_each (fun _ => i <- draw ;; ret (random i)) xs w =
    (Returns (map random (seq (drawn w) (List.length xs))),
     mkWorld (self w) (logged w) (invoked w)
       (drawn w + List.length xs)%nat).
Proof.
  revert w. induction xs as [| x xs IH]; intro w; simpl.
  - rewrite Nat.add_0_r. destruct w; reflexivity.
  - unfold bind at 1. unfold bind at 1. simpl. unfold bind at 1.
    rewrite IH. simpl. rewrite Nat.add_succ_r. reflexivity.
Qed.

Lemma item_at {A} (xs : list A) (i : nat) (d : A) (w : World) :
  (i < List.length xs)%nat -> item xs i w = (Returns (nth i xs d), w).
Proof.
  intro H. unfold item. rewrite (nth_error_nth' xs d H). reflexivity.
Qed.

Lemma voices_run {A} (n_voices : Z) (given : option (list A))
    (bad : A -> bool) (m1 m2 : string) (random : nat -> A) (w : World) :
  voices_accepted n_voices bad given = true ->
  voices n_voices given bad m1 m2 random w =
    (Returns (chosen n_voices given random (drawn w)),
     mkWorld (self w) (logged w) (invoked w)
       (drawn w + draws_for n_voices given)%nat).
Proof.
  unfold voices, voices_accepted, chosen, draws_for.
  destruct given as [xs |].
  - intro H. apply andb_prop in H. destruct H as [Hlen Hbad].
    apply negb_true_iff in Hbad. unfold bind. rewrite Hlen, Hbad. simpl.
    rewrite Nat.add_0_r. destruct w; reflexivity.
  - intros _. rewrite for_each_draws. unfold range.
    rewrite length_seq. reflexivity.
Qed.

Lemma chosen_length {A} (n_voices : Z) (given : option (list A))
    (bad : A -> bool) (random : nat -> A) (first : nat) :
  voices_accepted n_voices bad given = true ->
  List.length (chosen n_voices given random first) = Z.to_nat n_voices.
Proof.
  unfold voices_accepted, chosen. destruct given as [xs |].
  - intro H. apply andb_prop in H. destruct H as [Hlen _].
    apply Z.eqb_eq in Hlen. lia.
  - intros _. rewrite length_map, length_seq. reflexivity.
Qed.

Lemma voices_length (delays decays speeds depths : list number)
    (shapes : list string) (l : list nat) :
  List.length (flat_map (voice delays decays speeds depths shapes) l)
  = (5 * List.length l)%nat.
Proof.
  induction l as [| i l IH]; simpl; [reflexivity |]. rewrite IH. lia.
Qed.

End ChorusFacts.

Section Chorus.
Context (env : Collaborators).

(** X15.  A [chorus] call that passes its checks returns and appends
    [chorus], the two gains, and five tokens for each voice in the order
    delay, decay, speed, depth, shape: [3 + 5 * n_voices] tokens.  Each
    per-voice argument is used as given, or, when omitted, filled with
    [n_voices] consecutive draws from [random], the arguments being
    served in the order delays, decays, speeds, depths, shapes. *)
Theorem chorus_layout (w : World) (gain_in gain_out : number)
    (n_voices : Z) (delays decays speeds depths : option (list number))
    (shapes : option (list string)) :
  is_number gain_in = true ->
  (gain_in <=? PInt 0)%py = false -> (gain_in >? PInt 1)%py = false ->
  is_number gain_out = true ->
  (gain_out <=? PInt 0)%py = false -> (gain_out >? PInt 1)%py = false ->
  0 < n_voices ->
  voices_accepted n_voices
    (fun p => negb (is_number p) || (p <? PInt 20)%py) delays = true ->
  voices_accepted n_voices
    (fun p => negb (is_number p) || (p <=? PInt 0)%py || (p >? PInt 1)%py)
    decays = true ->
  voices_accepted n_voices
    (fun p => negb (is_number p) || (p <=? PInt 0)%py) speeds = true ->
  voices_accepted n_voices
    (fun p => negb (is_number p) || (p <=? PInt 0)%py) depths = true ->
  voices_accepted n_voices
    (fun p => negb (in_list p ["t"; "s"])) shapes = true ->
  let d1 := drawn w in
  let d2 := (d1 + draws_for n_voices delays)%nat in
  let d3 := (d2 + draws_for n_voices decays)%nat in
  let d4 := (d3 + draws_for n_voices speeds)%nat in
  let d5 := (d4 + draws_for n_voices depths)%nat in
  let toks :=
    ["chorus"; format gain_in; format gain_out]
    ++ flat_map
         (voice
            (chosen n_voices delays
               (fun i => PFloat (random_uniform env i (PInt 40) (PInt 60)))
               d1)
            (chosen n_voices decays
               (fun i =>
                  PFloat (random_uniform env i (PFloat 0.3) (PFloat 0.4)))
               d2)
            (chosen n_voices speeds
               (fun i =>
                  PFloat (random_uniform env i (PFloat 0.25) (PFloat 0.4)))
               d3)
            (chosen n_voices depths
               (fun i => PFloat (random_uniform env i (PFloat 1) (PFloat 3)))
               d4)
            (chosen n_voices shapes
               (fun i => random_choice env i ["t"; "s"]) d5))
         (range n_voices) in
  chorus env gain_in gain_out n_voices delays decays speeds depths shapes w
  = (Returns tt,
     mkWorld (committed (self w) toks "chorus") (logged w) (invoked w)
       (d5 + draws_for n_voices shapes)%nat)
  /\ Z.of_nat (List.length toks) = 3 + 5 * n_voices.
Proof.
  intros Hi Hi0 Hi1 Ho Ho0 Ho1 Hn Hdl Hdc Hsp Hdp Hsh d1 d2 d3 d4 d5 toks.
  split.
  - unfold chorus. unfold bind at 1. rewrite Hi, Hi0, Hi1. simpl.
    unfold bind at 1. rewrite Ho, Ho0, Ho1. simpl.
    unfold bind at 1. rewrite (proj2 (Z.leb_gt _ _) Hn). simpl.
    unfold bind at 1. rewrite (ChorusFacts.voices_run _ _ _ _ _ _ _ Hdl).
    unfold bind at 1. rewrite (ChorusFacts.voices_run _ _ _ _ _ _ _ Hdc).
    unfold bind at 1. rewrite (ChorusFacts.voices_run _ _ _ _ _ _ _ Hsp).
    unfold bind at 1. rewrite (ChorusFacts.voices_run _ _ _ _ _ _ _ Hdp).
    unfold bind at 1. rewrite (ChorusFacts.voices_run _ _ _ _ _ _ _ Hsh).
    cbn [self logged invoked drawn].
    fold d1. fold d2. fold d3. fold d4. fold d5.
    unfold bind at 1.
    rewrite (ChorusFacts.for_each_reads _
               (voice
                  (chosen n_voices delays
                     (fun i =>
                        PFloat (random_uniform env i (PInt 40) (PInt 60)))
                     d1)
                  (chosen n_voices decays
                     (fun i =>
                        PFloat
                          (random_uniform env i (PFloat 0.3) (PFloat 0.4)))
                     d2)
                  (chosen n_voices speeds
                     (fun i =>
                        PFloat
                          (random_uniform env i (PFloat 0.25) (PFloat 0.4)))
                     d3)
                  (chosen n_voices depths
                     (fun i =>
                        PFloat (random_uniform env i (PFloat 1) (PFloat 3)))
                     d4)
                  (chosen n_voices shapes
                     (fun i => random_choice env i ["t"; "s"]) d5))).
    + unfold toks. rewrite flat_map_concat_map. reflexivity.
    + intros i Hin. unfold range in Hin. apply in_seq in Hin.
      unfold bind.
      rewrite (ChorusFacts.item_at _ i (PInt 0));
        [| rewrite (ChorusFacts.chosen_length _ _ _ _ _ Hdl); lia].
      rewrite (ChorusFacts.item_at _ i (PInt 0));
        [| rewrite (ChorusFacts.chosen_length _ _ _ _ _ Hdc); lia].
      rewrite (ChorusFacts.item_at _ i (PInt 0));
        [| rewrite (ChorusFacts.chosen_length _ _ _ _ _ Hsp); lia].
      rewrite (ChorusFacts.item_at _ i (PInt 0));
        [| rewrite (ChorusFacts.chosen_length _ _ _ _ _ Hdp); lia].
      rewrite (ChorusFacts.item_at _ i "");
        [| rewrite (ChorusFacts.chosen_length _ _ _ _ _ Hsh); lia].
      reflexivity.
  - unfold toks. rewrite length_app, ChorusFacts.voices_length.
    unfold range. rewrite length_seq. simpl List.length. lia.
Qed.

End Chorus.

Lemma chorus_layout_witness :
  effects
    (self (snd (chorus obliging (PFloat 0.5) (PFloat 0.9) 3
                  (Some [PInt 50; PInt 60; PInt 40])
                  (Some [PFloat 0.4; PFloat 0.3; PFloat 0.3])
                  (Some [PFloat 0.25; PFloat 0.4; PFloat 0.3])
                  (Some [PInt 2; PFloat 2.3; PFloat 1.3])
                  (Some ["s"; "t"; "s"]) fresh)))
  = ["chorus"; "0.5"; "0.9";
     "50"; "0.4"; "0.25"; "2"; "-s";
     "60"; "0.3"; "0.4"; "2.3"; "-t";
     "40"; "0.3"; "0.3"; "1.3"; "-s"]
  /\ drawn (snd (chorus obliging (PFloat 0.5) (PFloat 0.9) 2
                   (Some [PInt 50; PInt 60]) None None None
                   (Some ["s"; "t"]) fresh))
     = 6%nat.
Proof.
  destruct (chorus_layout obliging fresh (PFloat 0.5) (PFloat 0.9) 3
              (Some [PInt 50; PInt 60; PInt 40])
              (Some [PFloat 0.4; PFloat 0.3; PFloat 0.3])
              (Some [PFloat 0.25; PFloat 0.4; PFloat 0.3])
              (Some [PInt 2; PFloat 2.3; PFloat 1.3])
              (Some ["s"; "t"; "s"])
              eq_refl eq_refl eq_refl eq_refl eq_refl eq_refl eq_refl
              eq_refl eq_refl eq_refl eq_refl eq_refl) as [H1 _].
  destruct (chorus_layout obliging fresh (PFloat 0.5) (PFloat 0.9) 2
              (Some [PInt 50; PInt 60]) None None None (Some ["s"; "t"])
              eq_refl eq_refl eq_refl eq_refl eq_refl eq_refl eq_refl
              eq_refl eq_refl eq_refl eq_refl eq_refl) as [H2 _].
  rewrite H1, H2. split; reflexivity.
Defined.

(** * Filters and time stretching *)

(** X16.  [biquad] takes two lists of three coefficients: given three
    numbers and three numbers it appends [biquad] and the six
    coefficients, numerator first, and its index lookups never fail; a
    list of another length is rejected with a validation error, whatever
    it holds, and nothing changes. *)
Theorem biquad_accepts_three_and_three (w : World) (b a : list number) :
  let three_each :=
    Nat.eqb (List.length b) 3 && Nat.eqb (List.length a) 3 in
  (three_each = true ->
   forallb is_number b = true ->
   forallb is_number a = true ->
   biquad b a w =
     (Returns tt,
      with_self w
        (committed (self w) ("biquad" :: map format (b ++ a)) "biquad")))
  /\ (three_each = false ->
      exists msg, biquad b a w = (Raises (ValueError msg), w)).
Proof.
  cbv zeta. unfold biquad, bind. split.
  - intros H Hb Ha. apply andb_prop in H. destruct H as [Hlb Hla].
    rewrite Hlb, Hla, Hb, Ha. simpl.
    destruct b as [| b0 [| b1 [| b2 [| b3 b]]]]; try discriminate.
    destruct a as [| a0 [| a1 [| a2 [| a3 a]]]]; try discriminate.
    reflexivity.
  - intro H.
    destruct (Nat.eqb (List.length b) 3); simpl; [| eexists; reflexivity].
    destruct (Nat.eqb (List.length a) 3); simpl; [| eexists; reflexivity].
    discriminate.
Qed.

Lemma biquad_accepts_three_and_three_witness :
  effects (self (snd (biquad [PInt 1; PFloat 0.5; PInt 0]
                        [PInt 1; PFloat (-0.25); PFloat 0.125] fresh)))
  = ["biquad"; "1"; "0.5"; "0"; "1"; "-0.25"; "0.125"]
  /\ exists msg,
       biquad [PInt 1; PInt 2] [PInt 1; PInt 2; PInt 3] fresh
       = (Raises (ValueError msg), fresh).
Proof.
  destruct (biquad_accepts_three_and_three fresh
              [PInt 1; PFloat 0.5; PInt 0]
              [PInt 1; PFloat (-0.25); PFloat 0.125]) as [Hok _].
  destruct (biquad_accepts_three_and_three fresh
              [PInt 1; PInt 2] [PInt 1; PInt 2; PInt 3]) as [_ Hbad].
  split.
  - rewrite (Hok eq_refl eq_refl eq_refl). reflexivity.
  - exact (Hbad eq_refl).
Defined.

(** X17.  [highpass] and [lowpass] emit the Q-factor only for two
    poles: with a positive frequency and width, one pole gives
    [name -1 frequency], two poles give [name -2 frequency widthq], and
    any other pole count is rejected.  The width is checked all the
    same: a width that is not positive is rejected even for one pole,
    where it would not be emitted. *)
Theorem filters_emit_width_for_two_poles (w : World) (name : string)
    (filter : number -> number -> Z -> M unit)
    (frequency width_q : number) (n_poles : Z) :
  In (name, filter) [("highpass", highpass); ("lowpass", lowpass)] ->
  is_number frequency = true ->
  (frequency <=? PInt 0)%py = false ->
  is_number width_q = true ->
  let appends toks :=
    filter frequency width_q n_poles w =
      (Returns tt, with_self w (committed (self w) toks name)) in
  let rejects :=
    exists msg,
      filter frequency width_q n_poles w = (Raises (ValueError msg), w) in
  ((width_q <=? PInt 0)%py = true -> rejects)
  /\ ((width_q <=? PInt 0)%py = false ->
      (n_poles = 1 -> appends [name; "-1"; format frequency])
      /\ (n_poles = 2 ->
          appends [name; "-2"; format frequency;
                   (format width_q ++ "q")%string])
      /\ (n_poles <> 1 -> n_poles <> 2 -> rejects)).
Proof.
  intros Hf Hn H0 Hq appends rejects. unfold appends, rejects.
  assert (Hp : n_poles <> 1 -> n_poles <> 2 ->
               existsb (Z.eqb n_poles) [1; 2] = false).
  { intros H1 H2. simpl.
    rewrite (proj2 (Z.eqb_neq _ _) H1), (proj2 (Z.eqb_neq _ _) H2).
    reflexivity. }
  destruct Hf as [E | [E | []]]; injection E as <- <-;
    unfold highpass, lowpass, bind; rewrite Hn, H0, Hq.
  all: split; [intros ->; simpl; eexists; reflexivity |].
  all: intros ->; simpl; split; [| split].
  all: try (intros ->; reflexivity).
  all: intros H1 H2; rewrite (proj2 (Z.eqb_neq _ _) H1),
         (proj2 (Z.eqb_neq _ _) H2); simpl; eexists; reflexivity.
Qed.

Lemma filters_emit_width_for_two_poles_witness :
  effects (self (snd (highpass (PInt 300) (PFloat 0.707) 1 fresh)))
  = ["highpass"; "-1"; "300"]
  /\ effects (self (snd (lowpass (PFloat 4000) (PFloat 0.707) 2 fresh)))
     = ["lowpass"; "-2"; "4000.0"; "0.707q"]
  /\ exists msg,
       highpass (PInt 300) (PInt 0) 1 fresh = (Raises (ValueError msg), fresh).
Proof.
  destruct (filters_emit_width_for_two_poles fresh "highpass" highpass
              (PInt 300) (PFloat 0.707) 1
              (or_introl eq_refl) eq_refl eq_refl eq_refl) as [_ H1].
  destruct (filters_emit_width_for_two_poles fresh "lowpass" lowpass
              (PFloat 4000) (PFloat 0.707) 2
              (or_intror (or_introl eq_refl)) eq_refl eq_refl eq_refl)
    as [_ H2].
  destruct (filters_emit_width_for_two_poles fresh "highpass" highpass
              (PInt 300) (PInt 0) 1
              (or_introl eq_refl) eq_refl eq_refl eq_refl) as [H3 _].
  destruct (H1 eq_refl) as [H1' _]. destruct (H2 eq_refl) as [_ [H2' _]].
  rewrite (H1' eq_refl), (H2' eq_refl). repeat split.
  exact (H3 eq_refl).
Defined.

(** X18.  For a positive factor and an audio type among none, [m], [s]
    and [l], [tempo] returns and appends [tempo], then [-q] when
    [quick] is set, then the audio type as a flag, then the factor; a
    factor below 0.5 or above 2 adds one warning to the diagnostics and
    changes nothing else. *)
Theorem tempo_layout (w : World) (factor : number)
    (audio_type : option string) (quick : bool) :
  is_number factor = true ->
  (factor <=? PInt 0)%py = false ->
  in_list_or_None audio_type ["m"; "s"; "l"] = true ->
  tempo factor audio_type quick w =
    (Returns tt,
     mkWorld
       (committed (self w)
          (["tempo"] ++ when quick ["-q"]
           ++ unless_None audio_type (fun a => [("-" ++ a)%string])
           ++ [format factor])
          "tempo")
       (logged w
        ++ if (factor <? PFloat 0.5)%py || (factor >? PInt 2)%py
           then [(WARNING,
                  ("Using an extreme time stretching factor. "
                   ++ "Quality of results will be poor")%string)]
           else [])
       (invoked w) (drawn w)).
Proof.
  intros Hn H0 Ha. unfold tempo, bind. rewrite Hn, H0. simpl.
  destruct ((factor <? PFloat 0.5)%py || (factor >? PInt 2)%py); simpl;
    rewrite Ha; simpl; rewrite ?app_nil_r; reflexivity.
Qed.

Lemma tempo_layout_witness :
  effects (self (snd (tempo (PFloat 1.5) (Some "s") true fresh)))
  = ["tempo"; "-q"; "-s"; "1.5"]
  /\ List.length (logged (snd (tempo (PInt 3) None false fresh))) = 1%nat
  /\ effects (self (snd (tempo (PInt 3) None false fresh))) = ["tempo"; "3"].
Proof.
  rewrite (tempo_layout fresh (PFloat 1.5) (Some "s") true
             eq_refl eq_refl eq_refl).
  rewrite (tempo_layout fresh (PInt 3) None false eq_refl eq_refl eq_refl).
  repeat split.
Defined.

(** X19.  A valid [silence] call, buffered or not, encloses its tokens
    in two [reverse] tokens at [location = -1] and emits no [reverse]
    at the other locations: at [location = 0] the leading and the
    trailing group follow each other unwrapped, and at [location = 1]
    the leading group stands alone. *)
Theorem silence_location_layout (w : World) (location : Z)
    (silence_threshold min_silence_duration : number)
    (buffer_around_silence : bool) :
  In location [-1; 0; 1] ->
  is_number silence_threshold = true ->
  (silence_threshold <? PInt 0)%py = false ->
  (silence_threshold >=? PInt 100)%py = false ->
  is_number min_silence_duration = true ->
  (min_silence_duration <=? PInt 0)%py = false ->
  let head := "silence" :: when buffer_around_silence ["-l"] in
  let leading := silence_group "1" silence_threshold min_silence_duration in
  let trailing := silence_group "-1" silence_threshold min_silence_duration in
  let toks :=
    if location =? -1 then ["reverse"] ++ head ++ leading ++ ["reverse"]
    else if location =? 0 then head ++ leading ++ trailing
    else head ++ leading in
  silence location silence_threshold min_silence_duration
    buffer_around_silence w =
    (Returns tt, with_self w (committed (self w) toks "silence"))
  /\ occurrences "reverse" toks = if location =? -1 then 2%nat else 0%nat.
Proof.
  intros Hloc Ht Ht0 Ht100 Hd Hd0 head leading trailing toks.
  assert (Hnone : ~ In "v"%char (list_ascii_of_string "")) by intros [].
  assert (Hpercent : ~ In "v"%char (list_ascii_of_string "%")).
  { simpl. intros [H | []]. discriminate. }
  assert (Hr : forall x suffix,
             ~ In "v"%char (list_ascii_of_string suffix) ->
             String.eqb "reverse" (format x ++ suffix) = false).
  { intros x suffix Hs.
    apply (format_eqb_token x suffix "reverse" "v"%char);
      [simpl; auto | reflexivity | exact Hs]. }
  assert (Hplain : forall x, (format x ++ "")%string = format x).
  { intro x. induction (format x); simpl; congruence. }
  pose proof (Hr min_silence_duration "" Hnone) as Hr1.
  pose proof (Hr silence_threshold "%" Hpercent) as Hr2.
  rewrite Hplain in Hr1.
  split.
  - unfold toks, head, leading, trailing, silence, bind.
    rewrite Ht, Ht0, Ht100, Hd, Hd0.
    destruct Hloc as [<- | [<- | [<- | []]]];
      destruct buffer_around_silence; reflexivity.
  - unfold toks, head, leading, trailing, silence_group.
    destruct Hloc as [<- | [<- | [<- | []]]];
      destruct buffer_around_silence;
      cbn [Z.eqb Pos.eqb when app];
      rewrite !occurrences_cons, !occurrences_nil, ?Hr1, ?Hr2;
      reflexivity.
Qed.

Lemma silence_location_layout_witness :
  effects (self (snd (silence 1 (PFloat 0.1) (PFloat 0.5) false fresh)))
  = ["silence"; "1"; "0.5"; "0.1%"]
  /\ effects (self (snd (silence (-1) (PFloat 0.1) (PFloat 0.5) false fresh)))
     = ["reverse"; "silence"; "1"; "0.5"; "0.1%"; "reverse"]
  /\ effects (self (snd (silence 0 (PFloat 0.1) (PFloat 0.5) false fresh)))
     = ["silence"; "1"; "0.5"; "0.1%"; "-1"; "0.5"; "0.1%"].
Proof.
  destruct (silence_location_layout fresh 1 (PFloat 0.1) (PFloat 0.5) false
              (or_intror (or_intror (or_introl eq_refl)))
              eq_refl eq_refl eq_refl eq_refl eq_refl) as [H1 _].
  destruct (silence_location_layout fresh (-1) (PFloat 0.1) (PFloat 0.5)
              false (or_introl eq_refl)
              eq_refl eq_refl eq_refl eq_refl eq_refl) as [H2 _].
  destruct (silence_location_layout fresh 0 (PFloat 0.1) (PFloat 0.5) false
              (or_intror (or_introl eq_refl))
              eq_refl eq_refl eq_refl eq_refl eq_refl) as [H3 _].
  rewrite H1, H2, H3. repeat split.
Defined.
